(** * Dependency-graph builder: a shallow embedding and its properties

    The development follows the Python sources:
    - [PyStr]: the handful of [str] methods the program calls;
    - [DependencyFetcher]: the two lookup strategies of dependency_fetcher.py
      (the part after the transport: parsing of the stub file and of the
      [requires_dist] entries of the package index);
    - [GraphBuilder]: graph_builder.py, the recursive traversal with its four
      mutable structures, the [try]/[except]/[finally] of [_dfs] written out.

    Package names and file contents are ASCII text: a Python [str] whose code
    points are all below 128 is a [string]. *)

From Stdlib Require Import String Ascii List Bool Arith Lia.
From stdpp Require Import gmap strings list fin_maps.
Import ListNotations.
Local Open Scope string_scope.
Set Warnings "-clear-no-such-hyp".

(** ** The [str] methods used by the program *)

Module PyStr.

(** [str.lower] and [str.upper] on ASCII text. *)
Definition lower_char (c : ascii) : ascii :=
  let n := nat_of_ascii c in
  if ((65 <=? n) && (n <=? 90))%nat then ascii_of_nat (n + 32) else c.

Definition upper_char (c : ascii) : ascii :=
  let n := nat_of_ascii c in
  if ((97 <=? n) && (n <=? 122))%nat then ascii_of_nat (n - 32) else c.

Fixpoint lower (s : string) : string :=
  match s with
  | EmptyString => EmptyString
  | String c s' => String (lower_char c) (lower s')
  end.

Fixpoint upper (s : string) : string :=
  match s with
  | EmptyString => EmptyString
  | String c s' => String (upper_char c) (upper s')
  end.

(** [sub in s]: [sub] occurs in [s] as a contiguous run ([""] occurs in
    every string). *)
Fixpoint contains (sub s : string) : bool :=
  String.prefix sub s ||
  match s with
  | EmptyString => false
  | String _ s' => contains sub s'
  end.

(** [c in s] for a one-character needle. *)
Fixpoint has_char (c : ascii) (s : string) : bool :=
  match s with
  | EmptyString => false
  | String d s' => if ascii_dec c d then true else has_char c s'
  end.

(** The ASCII characters for which [str.isspace] holds: tab, line feed,
    vertical tab, form feed, carriage return, the four separators
    0x1c..0x1f, and the space. *)
Definition is_space (c : ascii) : bool :=
  let n := nat_of_ascii c in
  (((9 <=? n) && (n <=? 13)) || ((28 <=? n) && (n <=? 31)) || (n =? 32))%nat.

Fixpoint lstrip (s : string) : string :=
  match s with
  | EmptyString => EmptyString
  | String c s' => if is_space c then lstrip s' else s
  end.

(** [rstrip] keeps a character when it is not a space or when something
    is kept after it. *)
Fixpoint rstrip (s : string) : string :=
  match s with
  | EmptyString => EmptyString
  | String c s' =>
      match rstrip s' with
      | EmptyString => if is_space c then EmptyString else String c EmptyString
      | t => String c t
      end
  end.

(** [s.strip()] *)
Definition strip (s : string) : string := rstrip (lstrip s).

(** [s.split(sep)] for a one-character separator: every occurrence cuts,
    empty pieces are kept, the result has at least one piece. *)
Fixpoint split_char (sep : ascii) (s : string) : list string :=
  match s with
  | EmptyString => [EmptyString]
  | String c s' =>
      if ascii_dec c sep then EmptyString :: split_char sep s'
      else match split_char sep s' with
           | [] => [String c EmptyString]
           | w :: ws => String c w :: ws
           end
  end.

(** [s.split(sep, 1)]: cut at the first occurrence only. *)
Fixpoint split_char_once (sep : ascii) (s : string) : list string :=
  match s with
  | EmptyString => [EmptyString]
  | String c s' =>
      if ascii_dec c sep then [EmptyString; s']
      else match split_char_once sep s' with
           | [] => [String c EmptyString]
           | w :: ws => String c w :: ws
           end
  end.

(** [s.split()]: the maximal runs of non-space characters. [cur] is the
    run being read, if any. *)
Fixpoint split_go (cur : option string) (s : string) : list string :=
  match s with
  | EmptyString =>
      match cur with None => [] | Some w => [w] end
  | String c s' =>
      if is_space c then
        match cur with
        | None => split_go None s'
        | Some w => w :: split_go None s'
        end
      else
        split_go (Some (match cur with None => "" | Some w => w end
                        ++ String c EmptyString)) s'
  end.

Definition split (s : string) : list string := split_go None s.

(** [s.startswith(c)] for a one-character prefix. *)
Definition startswith_char (c : ascii) (s : string) : bool :=
  match s with
  | String d _ => if ascii_dec c d then true else false
  | EmptyString => false
  end.

(** [if s:] on a string. *)
Definition truthy (s : string) : bool :=
  match s with EmptyString => false | _ => true end.

(** [s.replace(old, new)] for a non-empty [old]: the occurrences of [old]
    are found from the left and do not overlap. [skip] counts the
    characters of an occurrence just replaced that are still to be passed
    over. *)
Fixpoint replace_go (old new : string) (skip : nat) (s : string) : string :=
  match s with
  | EmptyString => EmptyString
  | String c s' =>
      match skip with
      | S k => replace_go old new k s'
      | O =>
          if String.prefix old s
          then new ++ replace_go old new (String.length old - 1) s'
          else String c (replace_go old new 0 s')
      end
  end.

Definition replace (old new s : string) : string := replace_go old new 0 s.

(** [sep.join(pieces)] *)
Fixpoint join (sep : string) (pieces : list string) : string :=
  match pieces with
  | [] => EmptyString
  | [piece] => piece
  | piece :: rest => piece ++ sep ++ join sep rest
  end.

End PyStr.

(** ** dependency_fetcher.py *)

Module DependencyFetcher.

(** What [urlopen] and [json.loads] hand back for one package: an HTTP
    error with its code, any other failure, or the decoded document, of
    which only [info.requires_dist] is read ([None] when the field is
    null, [Some []] when it is missing). *)
Inductive index_reply :=
| HTTPError (code : nat)
| TransportError
| Document (requires_dist : option (list string)).

(** A fetcher: the mode flag, the stub file behind [repo_url] ([None] when
    [os.path.exists] is false) and the package index. A lookup returns
    [None] when the Python method raises. *)
Record t := {
  test_mode : bool;
  repo_file : option string;
  index : string -> index_reply
}.

(** [req.split()[0].split('(')[0].split('[')[0].strip()]; [None] is the
    [IndexError] of [[0]] on an empty list. *)
Definition parse_requirement (req : string) : option string :=
  w ← head (PyStr.split req);
  a ← head (PyStr.split_char "(" w);
  b ← head (PyStr.split_char "[" a);
  Some (PyStr.strip b).

(** The loop over [requires_dist], [dependencies] being the list built so
    far. *)
Fixpoint collect (requires_dist dependencies : list string)
  : option (list string) :=
  match requires_dist with
  | [] => Some dependencies
  | req :: rest =>
      dep ← parse_requirement req;
      collect rest (if PyStr.truthy dep then (dependencies ++ [dep])%list
                    else dependencies)
  end.

(** Every exception of the body, the [IndexError] included, leaves as a
    [RuntimeError]. *)
Definition _get_dependencies_from_pypi (reply : index_reply)
  : option (list string) :=
  match reply with
  | HTTPError _ => None
  | TransportError => None
  | Document None => Some []
  | Document (Some requires_dist) => collect requires_dist []
  end.

(** The loop over the lines of the stub file: the first record whose name
    equals [package_name] up to case gives the result, no record gives
    the empty list. *)
Fixpoint scan (lines : list string) (package_name : string) : list string :=
  match lines with
  | [] => []
  | line :: rest =>
      let line := PyStr.strip line in
      if negb (PyStr.truthy line) || PyStr.startswith_char "#" line then
        scan rest package_name
      else if PyStr.has_char ":" line then
        let parts := PyStr.split_char_once ":" line in
        let current_package := PyStr.strip (nth 0 parts "") in
        let deps_str :=
          if (1 <? length parts)%nat then PyStr.strip (nth 1 parts "") else "" in
        if String.eqb (PyStr.upper current_package) (PyStr.upper package_name)
        then
          if PyStr.truthy deps_str then
            List.filter PyStr.truthy (map PyStr.strip (PyStr.split deps_str))
          else []
        else scan rest package_name
      else scan rest package_name
  end.

Definition _get_dependencies_from_test_file (file : option string)
    (package_name : string) : option (list string) :=
  match file with
  | None => None
  | Some content =>
      Some (scan (PyStr.split_char "010" (PyStr.strip content)) package_name)
  end.

Definition get_direct_dependencies (self : t) (package_name : string)
  : option (list string) :=
  if test_mode self then
    _get_dependencies_from_test_file (repo_file self) package_name
  else
    _get_dependencies_from_pypi (index self package_name).

(** A fetcher in test mode over the given file content. *)
Definition stub (content : string) : t :=
  {| test_mode := true;
     repo_file := Some content;
     index := fun _ => TransportError |}.

End DependencyFetcher.

(** ** graph_builder.py *)

Module GraphBuilder.

(** The builder only calls [get_direct_dependencies] on its fetcher: a
    Dependency Source is a function from a package name to the list it
    returns, or [None] when the call raises. *)
Definition Source := string -> option (list string).

(** The exceptions that can arise inside [_dfs]: a failed fetch, and the
    [KeyError] of [set.remove] on an absent element. Both are instances
    of [Exception]. *)
Inductive exn := FetchError | KeyError.

(** How a call ends. *)
Inductive completion := Returns | Raises (e : exn).

(** The four mutable attributes of a builder. [fetched] is not an
    attribute: it records, in order, the names
    [get_direct_dependencies] was called with since the last reset. *)
Record state := State {
  graph : gmap string (list string);
  visited : gset string;
  current_path : gset string;
  cycles : list (list string);
  fetched : list string
}.

Definition fresh : state :=
  {| graph := ∅; visited := ∅; current_path := ∅; cycles := []; fetched := [] |}.

Definition set_graph (k : string) (v : list string) (s : state) : state :=
  {| graph := <[k := v]> (graph s); visited := visited s;
     current_path := current_path s; cycles := cycles s; fetched := fetched s |}.

Definition path_add (k : string) (s : state) : state :=
  {| graph := graph s; visited := visited s;
     current_path := {[k]} ∪ current_path s; cycles := cycles s;
     fetched := fetched s |}.

Definition path_remove (k : string) (s : state) : state :=
  {| graph := graph s; visited := visited s;
     current_path := current_path s ∖ {[k]}; cycles := cycles s;
     fetched := fetched s |}.

Definition visited_add (k : string) (s : state) : state :=
  {| graph := graph s; visited := {[k]} ∪ visited s;
     current_path := current_path s; cycles := cycles s;
     fetched := fetched s |}.

Definition cycles_append (c : list string) (s : state) : state :=
  {| graph := graph s; visited := visited s; current_path := current_path s;
     cycles := (cycles s ++ [c])%list; fetched := fetched s |}.

Definition note_fetch (k : string) (s : state) : state :=
  {| graph := graph s; visited := visited s; current_path := current_path s;
     cycles := cycles s; fetched := (fetched s ++ [k])%list |}.

(** [for dep in deps: visit(dep)], stopping at the first exception. *)
Fixpoint for_each (visit : string -> state -> option (completion * state))
    (deps : list string) (s : state) : option (completion * state) :=
  match deps with
  | [] => Some (Returns, s)
  | dep :: rest =>
      match visit dep s with
      | None => None
      | Some (Raises e, s') => Some (Raises e, s')
      | Some (Returns, s') => for_each visit rest s'
      end
  end.

Section Instance.

(** The two attributes [__init__] sets and nothing changes afterwards. *)
Variable dependency_fetcher : Source.
Variable filter_substring : string.

Definition should_filter_package (package_name : string) : bool :=
  if negb (PyStr.truthy filter_substring) then false
  else PyStr.contains filter_substring (PyStr.lower package_name).

(** The body of the [try] block for [package_name], given the visit of
    one dependency. *)
Definition try_body (visit : string -> state -> option (completion * state))
    (package_name : string) (s : state) : option (completion * state) :=
  match dependency_fetcher package_name with
  | None => Some (Raises FetchError, note_fetch package_name s)
  | Some dependencies =>
      let filtered_deps :=
        List.filter (fun dep => negb (should_filter_package dep)) dependencies in
      let s := set_graph package_name filtered_deps (note_fetch package_name s) in
      for_each visit filtered_deps s
  end.

(** [except Exception]: any exception of the body is replaced by the
    assignment of the empty list. *)
Definition except_handler (package_name : string) (r : completion * state)
  : completion * state :=
  match r with
  | (Raises _, s) => (Returns, set_graph package_name [] s)
  | (Returns, s) => (Returns, s)
  end.

(** [finally]: [current_path.remove] raises [KeyError] when the name is
    absent, and then [visited.add] is not reached; an exception still
    pending after the handler would be re-raised at the end. *)
Definition finally_block (package_name : string) (r : completion * state)
  : completion * state :=
  let '(c, s) := r in
  if decide (package_name ∈ current_path s) then
    (c, visited_add package_name (path_remove package_name s))
  else (Raises KeyError, s).

(** [_dfs]. [fuel] bounds the depth of the recursion, and [None] means
    that the bound was reached before the call ended. The interpreter's own
    recursion limit is not part of the model. A cycle record is
    [list(self.current_path) + [package_name]]: Python leaves the order of
    a set's elements open, and [elements] is one such order. *)
Fixpoint _dfs (fuel : nat) (package_name : string) (s : state)
  : option (completion * state) :=
  match fuel with
  | O => None
  | S fuel' =>
      if should_filter_package package_name then Some (Returns, s)
      else if decide (package_name ∈ current_path s) then
        let cycle := (elements (current_path s) ++ [package_name])%list in
        Some (Returns, cycles_append cycle s)
      else if decide (package_name ∈ visited s) then Some (Returns, s)
      else
        let s := path_add package_name s in
        match try_body (_dfs fuel') package_name s with
        | None => None
        | Some r => Some (finally_block package_name (except_handler package_name r))
        end
  end.

(** The four assignments that open [build_graph]. *)
Definition reset (self : state) : state :=
  {| graph := ∅; visited := ∅; current_path := ∅; cycles := [];
     fetched := [] |}.

(** [build_graph]: the attributes are reset, [_dfs] runs from the root,
    and the value returned is the [graph] attribute of the resulting
    state. An exception of [_dfs] would leave [build_graph] too. *)
Definition build_graph (fuel : nat) (package_name : string) (self : state)
  : option (completion * state) :=
  _dfs fuel package_name (reset self).

(** [get_reverse_dependencies]: the loop over [self.graph.items()],
    which keeps the keys whose list holds [package_name]. The order of
    [items] is that of [map_to_list], not the dictionary's. *)
Fixpoint collect_dependents (items : list (string * list string))
    (package_name : string) : list string :=
  match items with
  | [] => []
  | (pkg, deps) :: rest =>
      if decide (package_name ∈ deps)
      then pkg :: collect_dependents rest package_name
      else collect_dependents rest package_name
  end.

Definition get_reverse_dependencies (self : state) (package_name : string)
  : list string :=
  collect_dependents (map_to_list (graph self)) package_name.

Definition get_cycles (self : state) : list (list string) := cycles self.

End Instance.

(** [__init__] stores the filter in lower case, and the empty string when
    none is given. *)
Definition stored_filter (filter_substring : string) : string :=
  if PyStr.truthy filter_substring then PyStr.lower filter_substring else "".

End GraphBuilder.

(** ** visualizer.py *)

Module Visualizer.

(** The characters that make [_escape_d2_identifier] quote a name: hyphen,
    dot, space, colon, slash and backslash. *)
Definition special : list ascii := ["045"; "046"; "032"; "058"; "047"; "092"]%char.

Definition quote : string := String "034" EmptyString.

Definition _escape_d2_identifier (identifier : string) : string :=
  if existsb (fun c => PyStr.has_char c identifier) special
  then quote ++ identifier ++ quote
  else identifier.

(** The line appended for one edge. *)
Definition edge_line (package dep : string) : string :=
  _escape_d2_identifier package ++ " -> " ++ _escape_d2_identifier dep.

(** The inner loop of [generate_d2_code]: one appended line per dependency
    of [package]. *)
Fixpoint edges_of (package : string) (deps : list string) (lines : list string)
  : list string :=
  match deps with
  | [] => lines
  | dep :: rest => edges_of package rest (lines ++ [edge_line package dep])%list
  end.

(** The outer loop, over the items of the graph in the order the
    dictionary gives them. *)
Fixpoint edges (items : list (string * list string)) (lines : list string)
  : list string :=
  match items with
  | [] => lines
  | (package, deps) :: rest => edges rest (edges_of package deps lines)
  end.

Definition header : string := "// Dependency graph visualization".

(** [generate_d2_code] on the items of [self.graph]. The set
    [all_packages] the method also builds is never read. *)
Definition generate_d2_code (items : list (string * list string)) : string :=
  PyStr.join (String "010" EmptyString) (edges items [header; ""]).

(** The file [visualize] saves the D2 text to. *)
Definition d2_file_name (output_file : string) : string :=
  PyStr.replace ".svg" ".d2" output_file.

End Visualizer.

(** ** config.py *)

Module Config.

(** A [ValueError], or the value returned. *)
Inductive result (A : Type) := Value (a : A) | ValueError.
Arguments Value {A} a.
Arguments ValueError {A}.

(** [_get_text] on the text of the element found: [None] when the element
    is missing or its text is [None]. *)
Definition _get_text (text : option string) : result string :=
  match text with
  | None => ValueError
  | Some t => Value (PyStr.strip t)
  end.

Definition _get_text_optional (text : option string) : string :=
  match text with
  | None => ""
  | Some t => PyStr.strip t
  end.

Definition _get_bool (text : option string) : result bool :=
  match _get_text text with
  | ValueError => ValueError
  | Value t =>
      if existsb (String.eqb (PyStr.lower t)) ["true"; "1"; "yes"] then Value true
      else if existsb (String.eqb (PyStr.lower t)) ["false"; "0"; "no"] then Value false
      else ValueError
  end.

End Config.

Import GraphBuilder.

(** ** Auxiliary definitions for the statements *)

Definition nl : string := String "010" EmptyString.

(** The stub file of the two-node cycle scenario, and its fetcher. *)
Definition cycle_file : string := "A: B" ++ nl ++ "B: A".

Definition cycle_source : Source :=
  DependencyFetcher.get_direct_dependencies (DependencyFetcher.stub cycle_file).

(** The state when the [try] block of [package_name] starts, and the effect
    of its [finally] block. *)
Definition enter (package_name : string) (s : state) : state :=
  note_fetch package_name (path_add package_name s).

Definition leave (package_name : string) (s : state) : state :=
  visited_add package_name (path_remove package_name s).

(** A completed loop over [deps] all of whose visits returned. *)
Inductive loop_run (visit : string -> state -> option (completion * state))
  : list string -> state -> state -> Prop :=
| loop_done s : loop_run visit [] s s
| loop_next d rest s s1 s2 :
    visit d s = Some (Returns, s1) ->
    loop_run visit rest s1 s2 ->
    loop_run visit (d :: rest) s s2.

(** The five ways a call of [_dfs] with fuel [S fuel] ends. *)
Inductive dfs_case (src : Source) (flt : string) (fuel : nat) (p : string)
    (s : state) : state -> Prop :=
| case_filtered :
    should_filter_package flt p = true ->
    dfs_case src flt fuel p s s
| case_cycle :
    should_filter_package flt p = false ->
    p ∈ current_path s ->
    dfs_case src flt fuel p s
      (cycles_append (elements (current_path s) ++ [p])%list s)
| case_visited :
    should_filter_package flt p = false ->
    p ∉ current_path s -> p ∈ visited s ->
    dfs_case src flt fuel p s s
| case_failed :
    should_filter_package flt p = false ->
    p ∉ current_path s -> p ∉ visited s ->
    src p = None ->
    dfs_case src flt fuel p s (leave p (set_graph p [] (enter p s)))
| case_expanded deps s2 :
    should_filter_package flt p = false ->
    p ∉ current_path s -> p ∉ visited s ->
    src p = Some deps ->
    loop_run (_dfs src flt fuel)
      (List.filter (fun dep => negb (should_filter_package flt dep)) deps)
      (set_graph p
         (List.filter (fun dep => negb (should_filter_package flt dep)) deps)
         (enter p s))
      s2 ->
    dfs_case src flt fuel p s (leave p s2).

(** What the graph holds for a fetched package: its filtered list, or the
    empty list when the fetch raised. *)
Definition stored (src : Source) (flt : string) (p : string) : list string :=
  match src p with
  | Some deps => List.filter (fun dep => negb (should_filter_package flt dep)) deps
  | None => []
  end.

(** The stub file of the filter scenario, and its fetcher. *)
Definition clib_file : string := "A: B Clib" ++ nl ++ "B:".

Definition clib_source : Source :=
  DependencyFetcher.get_direct_dependencies (DependencyFetcher.stub clib_file).


(** The names fetched so far are distinct and each is on the current path
    or visited. *)
Definition fetch_inv (s : state) : Prop :=
  NoDup (fetched s) ∧ ∀ k, k ∈ fetched s -> k ∈ current_path s ∪ visited s.

(** The graph is closed but for the packages on the current path, and every
    package on the path or visited is a key. *)
Definition closure_inv (s : state) : Prop :=
  current_path s ∪ visited s ⊆ dom (graph s) ∧
  ∀ k deps d, graph s !! k = Some deps -> k ∉ current_path s -> d ∈ deps ->
    d ∈ dom (graph s).

(** A source with infinitely many names: each package depends on the one
    whose name is one letter longer. *)
Definition chain_source : Source :=
  fun p => Some [String "a" p].

(** The names a line of a stub file can contribute to a result. *)
Definition record_deps (line : string) : list string :=
  List.filter PyStr.truthy
    (map PyStr.strip
       (PyStr.split
          (PyStr.strip (nth 1 (PyStr.split_char_once ":" (PyStr.strip line)) "")))).



(** The packages [build_graph] can reach from [root]: the root unless it
    is filtered, and the names stored for a reachable package. *)
Inductive reach (src : Source) (flt : string) (root : string) : string -> Prop :=
| reach_root :
    should_filter_package flt root = false -> reach src flt root root
| reach_step k d :
    reach src flt root k -> d ∈ stored src flt k -> reach src flt root d.

(** The keys of the graph are the packages on the path or visited, and
    the packages fetched. *)
Definition keys_inv (s : state) : Prop :=
  dom (graph s) = current_path s ∪ visited s ∧
  ∀ k, k ∈ fetched s ↔ k ∈ dom (graph s).

(** A cycle record: distinct keys of the graph, then one of them again. *)
Definition cycle_record (g : gmap string (list string)) (c : list string) : Prop :=
  ∃ body p, c = (body ++ [p])%list ∧ p ∈ body ∧ NoDup body ∧
            ∀ x, x ∈ body -> x ∈ dom g.

(** Strings made of blanks only, and strings free of a character. *)
Fixpoint all_space (s : string) : bool :=
  match s with
  | EmptyString => true
  | String c s' => PyStr.is_space c && all_space s'
  end.

Fixpoint no_space (s : string) : bool :=
  match s with
  | EmptyString => true
  | String c s' => negb (PyStr.is_space c) && no_space s'
  end.

(** A name the index lookup can return: not empty, and free of blanks, of
    the opening parenthesis and of the opening bracket. *)
Definition bare (s : string) : Prop :=
  s ≠ "" ∧ no_space s = true ∧
  PyStr.has_char "(" s = false ∧ PyStr.has_char "[" s = false.

(** The name a line of a stub file is a record of. *)
Definition record_name (line : string) : string :=
  PyStr.strip (nth 0 (PyStr.split_char_once ":" (PyStr.strip line)) "").

(** A line of a stub file that is a record, and one that is a record of
    [package_name] up to case. *)
Definition is_record (line : string) : bool :=
  PyStr.truthy (PyStr.strip line)
  && negb (PyStr.startswith_char "#" (PyStr.strip line))
  && PyStr.has_char ":" (PyStr.strip line).

Definition record_of (package_name : string) (line : string) : bool :=
  is_record line
  && String.eqb (PyStr.upper (record_name line)) (PyStr.upper package_name).

(** The edge statements of a graph, in the order of its items. *)
Definition edge_statements (items : list (string * list string)) : list string :=
  flat_map (fun item => map (Visualizer.edge_line item.1) item.2) items.

(** The state [build_graph] ends in on [cycle_source] from A. *)
Definition cycle_final : state :=
  State {[ "A" := ["B"]; "B" := ["A"] ]} {[ "A"; "B" ]} ∅
        [["A"; "B"; "A"]] ["A"; "B"].

(** No key and no listed dependency of [g] matches the filter. *)
Definition filter_free (flt : string) (g : gmap string (list string)) : Prop :=
  ∀ k deps, g !! k = Some deps ->
    should_filter_package flt k = false ∧
    Forall (fun d => should_filter_package flt d = false) deps.

(** Every listed dependency of [g] is a key of [g]. *)
Definition closed_graph (g : gmap string (list string)) : Prop :=
  ∀ k deps d, g !! k = Some deps -> d ∈ deps -> d ∈ dom g.

(** ** The string methods and the fetcher on examples *)

Example lower_mixed : PyStr.lower "CLib-2" = "clib-2".
Proof. reflexivity. Qed.

Example split_runs : PyStr.split "  a  bc d " = ["a"; "bc"; "d"].
Proof. reflexivity. Qed.

Example split_char_keeps_empty : PyStr.split_char ":" "a::b" = ["a"; ""; "b"].
Proof. reflexivity. Qed.

Example split_once_rest : PyStr.split_char_once ":" "a: b:c" = ["a"; " b:c"].
Proof. reflexivity. Qed.

Example strip_both : PyStr.strip "  a b  " = "a b".
Proof. reflexivity. Qed.

Example stub_lookup :
  DependencyFetcher.get_direct_dependencies
    (DependencyFetcher.stub ("# demo" ++ nl ++ "A: B C" ++ nl ++ "B: C" ++ nl ++ "C:" ++ nl)) "a"
  = Some ["B"; "C"].
Proof. reflexivity. Qed.

Example pypi_forms :
  map DependencyFetcher.parse_requirement
    ["package"; "package>=1.0"; "package[extra]"; "package (>=1.0)";
     "package; python_version < '3'"; "  "]
  = [Some "package"; Some "package>=1.0"; Some "package"; Some "package";
     Some "package;"; None].
Proof. reflexivity. Qed.

Example build_chain :
  build_graph
    (DependencyFetcher.get_direct_dependencies
       (DependencyFetcher.stub ("A: B C" ++ nl ++ "B: C" ++ nl ++ "C:")))
    (stored_filter "") 3 "A" fresh
  = Some (Returns,
          State {[ "A" := ["B"; "C"]; "B" := ["C"]; "C" := [] ]}
                {[ "A"; "B"; "C" ]} ∅ [] ["A"; "B"; "C"]).
Proof. vm_compute. reflexivity. Qed.

Example build_filtered :
  build_graph clib_source (stored_filter "c") 2 "A" fresh
  = Some (Returns,
          State {[ "A" := ["B"]; "B" := [] ]} {[ "A"; "B" ]} ∅ [] ["A"; "B"]).
Proof. vm_compute. reflexivity. Qed.

(** ** Shape of a run of [_dfs] *)

Section Traversal.

Variable src : Source.
Variable flt : string.

Lemma _dfs_unfold fuel p s :
  _dfs src flt (S fuel) p s =
  if should_filter_package flt p then Some (Returns, s)
  else if decide (p ∈ current_path s) then
    Some (Returns, cycles_append (elements (current_path s) ++ [p])%list s)
  else if decide (p ∈ visited s) then Some (Returns, s)
  else
    match try_body src flt (_dfs src flt fuel) p (path_add p s) with
    | None => None
    | Some r => Some (finally_block p (except_handler p r))
    end.
Proof. reflexivity. Qed.

(** A loop whose visits never raise and keep an invariant [P], indexed by
    the dependencies still to visit. *)
Lemma for_each_inv visit (P : list string -> state -> Prop) deps s r :
  (∀ d rest s0 r0, P (d :: rest) s0 -> visit d s0 = Some r0 ->
     r0.1 = Returns ∧ P rest r0.2) ->
  P deps s ->
  for_each visit deps s = Some r ->
  r.1 = Returns ∧ P [] r.2.
Proof.
  intros Hstep. revert s.
  induction deps as [|d rest IH]; intros s HP Hrun; simpl in Hrun.
  - inversion Hrun; subst. auto.
  - destruct (visit d s) as [[c s1]|] eqn:Hv; [|discriminate].
    destruct (Hstep d rest s (c, s1) HP Hv) as [Hc HP1]. simpl in Hc, HP1.
    subst c. eauto.
Qed.

(** A call of [_dfs] that ends returns, and leaves the current path as it
    found it: the [remove] of the [finally] block always finds its name. *)
Lemma _dfs_returns fuel : ∀ p s c s',
  _dfs src flt fuel p s = Some (c, s') ->
  c = Returns ∧ current_path s' = current_path s.
Proof.
  induction fuel as [|fuel IH]; intros p s c s' Hrun; [discriminate|].
  rewrite _dfs_unfold in Hrun.
  destruct (should_filter_package flt p); [by inversion Hrun|].
  destruct (decide (p ∈ current_path s)) as [Hin|Hnin]; [by inversion Hrun|].
  destruct (decide (p ∈ visited s)); [by inversion Hrun|].
  unfold try_body in Hrun.
  destruct (src p) as [deps|].
  - set (fd := List.filter _ deps) in Hrun.
    destruct (for_each _ fd _) as [r|] eqn:Hloop; [|discriminate].
    apply (for_each_inv _
             (fun _ s0 => current_path s0 = {[p]} ∪ current_path s)) in Hloop;
      [| |reflexivity].
    + destruct Hloop as [Hc Hpath], r as [c0 s0]. simpl in Hc, Hpath. subst c0.
      simpl in Hrun. rewrite decide_True in Hrun by (rewrite Hpath; set_solver).
      inversion Hrun; subst. split; [done|].
      simpl. rewrite Hpath. set_solver.
    + intros d rest s0 [c0 s1] Hp0 Hv.
      destruct (IH _ _ _ _ Hv) as [-> Hp1]. simpl. split; [done|congruence].
  - simpl in Hrun. rewrite decide_True in Hrun by set_solver.
    inversion Hrun; subst. split; [done|]. simpl. set_solver.
Qed.

(** A completed loop over calls of [_dfs] is a [loop_run]. *)
Lemma for_each_loop_run fuel deps : ∀ s c s',
  for_each (_dfs src flt fuel) deps s = Some (c, s') ->
  c = Returns ∧ loop_run (_dfs src flt fuel) deps s s'.
Proof.
  induction deps as [|d rest IH]; intros s c s' Hrun; simpl in Hrun.
  - inversion Hrun; subst. split; [done|constructor].
  - destruct (_dfs src flt fuel d s) as [[c1 s1]|] eqn:Hv; [|discriminate].
    destruct (_dfs_returns _ _ _ _ _ Hv) as [-> _].
    destruct (IH _ _ _ Hrun) as [-> Hl]. split; [done|].
    econstructor; eauto.
Qed.

Lemma loop_run_for_each fuel deps s s' :
  loop_run (_dfs src flt fuel) deps s s' ->
  for_each (_dfs src flt fuel) deps s = Some (Returns, s').
Proof.
  induction 1 as [|d rest s s1 s2 Hv _ IH]; simpl; [done|].
  by rewrite Hv.
Qed.

Lemma loop_run_path fuel deps s s' :
  loop_run (_dfs src flt fuel) deps s s' -> current_path s' = current_path s.
Proof.
  induction 1 as [|d rest s s1 s2 Hv _ IH]; [done|].
  apply _dfs_returns in Hv as [_ Hp]. congruence.
Qed.

(** Invariants of a completed loop, indexed by the dependencies still to
    visit. *)
Lemma loop_run_inv visit (P : list string -> state -> Prop) deps s s' :
  (∀ d rest s0 s1, P (d :: rest) s0 -> visit d s0 = Some (Returns, s1) ->
     P rest s1) ->
  loop_run visit deps s s' -> P deps s -> P [] s'.
Proof. intros Hstep. induction 1; eauto. Qed.

(** The case analysis every later proof starts from. *)
Lemma _dfs_cases fuel p s c s' :
  _dfs src flt (S fuel) p s = Some (c, s') ->
  c = Returns ∧ dfs_case src flt fuel p s s'.
Proof.
  intros Hrun. split; [by apply _dfs_returns in Hrun as [-> _]|].
  rewrite _dfs_unfold in Hrun.
  destruct (should_filter_package flt p) eqn:Hf;
    [inversion Hrun; subst; by constructor|].
  destruct (decide (p ∈ current_path s)) as [Hin|Hnin];
    [inversion Hrun; subst; by constructor|].
  destruct (decide (p ∈ visited s)) as [Hv|Hnv];
    [inversion Hrun; subst; by constructor|].
  unfold try_body in Hrun.
  destruct (src p) as [deps|] eqn:Hsrc.
  - set (fd := List.filter _ deps) in Hrun.
    destruct (for_each _ fd _) as [[c0 s0]|] eqn:Hloop; [|discriminate].
    apply for_each_loop_run in Hloop as [-> Hloop].
    pose proof (loop_run_path _ _ _ _ Hloop) as Hpath.
    simpl in Hrun. rewrite decide_True in Hrun by (rewrite Hpath; set_solver).
    inversion Hrun; subst. by eapply case_expanded.
  - simpl in Hrun. rewrite decide_True in Hrun by set_solver.
    inversion Hrun; subst. by apply case_failed.
Qed.

End Traversal.

(** ** The filter *)

Section Filter.

Variable src : Source.
Variable flt : string.

Lemma elem_of_filtered deps d :
  d ∈ List.filter (fun dep => negb (should_filter_package flt dep)) deps ↔
  d ∈ deps ∧ should_filter_package flt d = false.
Proof.
  rewrite !list_elem_of_In, filter_In, negb_true_iff. tauto.
Qed.

Lemma filter_free_insert g p v :
  filter_free flt g ->
  should_filter_package flt p = false ->
  Forall (fun d => should_filter_package flt d = false) v ->
  filter_free flt (<[p := v]> g).
Proof.
  intros Hg Hp Hv k deps Hk.
  destruct (decide (p = k)) as [->|Hne].
  - rewrite lookup_insert_eq in Hk. by inversion Hk; subst.
  - rewrite lookup_insert_ne in Hk by done. eauto.
Qed.

Lemma filtered_clean deps :
  Forall (fun d => should_filter_package flt d = false)
    (List.filter (fun dep => negb (should_filter_package flt dep)) deps).
Proof. apply Forall_forall. intros d Hd. by apply elem_of_filtered in Hd as [_ ?]. Qed.

Lemma _dfs_filter_free fuel : ∀ p s c s',
  _dfs src flt fuel p s = Some (c, s') ->
  filter_free flt (graph s) -> filter_free flt (graph s').
Proof.
  induction fuel as [|fuel IH]; intros p s c s' Hrun Hs; [discriminate|].
  apply _dfs_cases in Hrun as [_ Hcase].
  destruct Hcase as [ | | | Hf _ _ _ | deps s2 Hf _ _ _ Hloop]; try done.
  - simpl. apply filter_free_insert; auto.
  - simpl.
    apply (loop_run_inv _ (fun _ s0 => filter_free flt (graph s0))) in Hloop;
      [done|by eauto|].
    simpl. apply filter_free_insert; auto using filtered_clean.
Qed.

End Filter.

(** [contains] is occurrence as a contiguous run, so that
    [should_filter_package] on a builder made with filter [f] is: [f] is
    not empty and occurs in the name, both taken in lower case. *)
Lemma app_String c s t : String c s ++ t = String c (s ++ t).
Proof. reflexivity. Qed.

Lemma prefix_spec sub s :
  String.prefix sub s = true ↔ ∃ post, s = sub ++ post.
Proof.
  revert s. induction sub as [|a sub IH]; intros s; simpl.
  - destruct s; split; eauto.
  - destruct s as [|b s]; simpl.
    + split; [done|]. by intros [post Hpost].
    + destruct (ascii_dec a b) as [->|Hne].
      * rewrite IH. split; intros [post Hpost]; exists post;
          rewrite app_String in *; congruence.
      * split; [done|]. intros [post Hpost]. rewrite app_String in Hpost.
        congruence.
Qed.

Lemma contains_nil sub :
  PyStr.contains sub "" = String.prefix sub "" || false.
Proof. reflexivity. Qed.

Lemma contains_String sub c s :
  PyStr.contains sub (String c s) =
  String.prefix sub (String c s) || PyStr.contains sub s.
Proof. reflexivity. Qed.

Lemma contains_spec sub s :
  PyStr.contains sub s = true ↔ ∃ pre post, s = pre ++ sub ++ post.
Proof.
  induction s as [|c s IH].
  - rewrite contains_nil, orb_false_r, prefix_spec. split.
    + intros [post Hpost]. by exists "", post.
    + intros (pre & post & Heq). destruct pre; [by exists post|done].
  - rewrite contains_String, orb_true_iff, prefix_spec, IH. split.
    + intros [[post Hpost]|(pre & post & Heq)].
      * by exists "", post.
      * exists (String c pre), post. by rewrite app_String, Heq.
    + intros (pre & post & Heq). destruct pre as [|c' pre].
      * left. by exists post.
      * right. exists pre, post. rewrite app_String in Heq. congruence.
Qed.

Lemma should_filter_package_spec f p :
  should_filter_package (stored_filter f) p = true ↔
  f ≠ "" ∧ ∃ pre post, PyStr.lower p = pre ++ PyStr.lower f ++ post.
Proof.
  unfold should_filter_package, stored_filter.
  destruct f as [|c f]; simpl; [by split; [|intros []]|].
  rewrite contains_spec. split; [by intros ?|by intros [_ ?]].
Qed.

(** C1. Whatever the source, the stored filter, the root and the previous
    attributes, a graph returned by [build_graph] has no key that
    [should_filter_package] accepts and no such name in any of its lists. *)
Theorem build_graph_filter_free src flt fuel root self c s' :
  build_graph src flt fuel root self = Some (c, s') ->
  filter_free flt (graph s').
Proof.
  intros Hrun. unfold build_graph in Hrun.
  eapply _dfs_filter_free; [exact Hrun|].
  intros k deps Hk. simpl in Hk. by rewrite lookup_empty in Hk.
Qed.

Lemma build_graph_filter_free_witness :
  filter_free (stored_filter "C") {[ "A" := ["B"]; "B" := [] ]}.
Proof.
  refine (build_graph_filter_free clib_source (stored_filter "C") 2 "A" fresh
            Returns
            (State {[ "A" := ["B"]; "B" := [] ]} {[ "A"; "B" ]} ∅ [] ["A"; "B"])
            _).
  vm_compute. reflexivity.
Defined.

(** ** Fetches *)

Section Fetches.

Variable src : Source.
Variable flt : string.

Lemma fetch_inv_enter p s :
  p ∉ current_path s -> p ∉ visited s ->
  fetch_inv s -> fetch_inv (enter p s).
Proof.
  intros Hp Hv [Hnd Hin]. split; simpl.
  - apply NoDup_app. split_and!; [done| |apply NoDup_singleton].
    intros k Hk Hk'. apply list_elem_of_singleton in Hk' as ->.
    apply Hin in Hk. set_solver.
  - intros k Hk. apply elem_of_app in Hk as [Hk|Hk].
    + apply Hin in Hk. set_solver.
    + apply list_elem_of_singleton in Hk as ->. set_solver.
Qed.

Lemma fetch_inv_leave p s : fetch_inv s -> fetch_inv (leave p s).
Proof.
  intros [Hnd Hin]. split; [done|]. simpl. intros k Hk.
  apply Hin in Hk. destruct (decide (k = p)); set_solver.
Qed.

(** Each call keeps the names fetched distinct: a name is fetched only when
    it is neither on the path nor visited, and it is one of the two from
    then on. *)
Lemma _dfs_fetch_inv fuel : ∀ p s c s',
  _dfs src flt fuel p s = Some (c, s') -> fetch_inv s -> fetch_inv s'.
Proof.
  induction fuel as [|fuel IH]; intros p s c s' Hrun Hs; [discriminate|].
  apply _dfs_cases in Hrun as [_ Hcase].
  destruct Hcase as [ | | | _ Hp Hv _ | deps s2 _ Hp Hv _ Hloop]; try done.
  - apply fetch_inv_leave. by apply (fetch_inv_enter p s).
  - apply fetch_inv_leave.
    apply (loop_run_inv _ (fun _ s0 => fetch_inv s0)) in Hloop;
      [done|by eauto|].
    by apply (fetch_inv_enter p s).
Qed.

(** The graph holds [stored] for every name fetched. *)
Lemma _dfs_stored fuel : ∀ p s c s',
  _dfs src flt fuel p s = Some (c, s') ->
  (∀ k, k ∈ fetched s -> graph s !! k = Some (stored src flt k)) ->
  ∀ k, k ∈ fetched s' -> graph s' !! k = Some (stored src flt k).
Proof.
  induction fuel as [|fuel IH]; intros p s c s' Hrun Hs; [discriminate|].
  apply _dfs_cases in Hrun as [_ Hcase].
  assert (∀ v, v = stored src flt p ->
            ∀ k, k ∈ fetched (set_graph p v (enter p s)) ->
                 graph (set_graph p v (enter p s)) !! k = Some (stored src flt k))
    as Hset.
  { intros v -> k Hk. simpl in *. destruct (decide (p = k)) as [->|Hne].
    - by rewrite lookup_insert_eq.
    - rewrite lookup_insert_ne by done. apply Hs.
      apply elem_of_app in Hk as [Hk|Hk]; [done|].
      by apply list_elem_of_singleton in Hk. }
  destruct Hcase as [ | | | _ _ _ Hsrc | deps s2 _ _ _ Hsrc Hloop]; try done.
  - apply Hset. unfold stored. by rewrite Hsrc.
  - change (∀ k, k ∈ fetched s2 -> graph s2 !! k = Some (stored src flt k)).
    refine (loop_run_inv _ (fun _ s0 =>
              ∀ k, k ∈ fetched s0 -> graph s0 !! k = Some (stored src flt k))
              _ _ _ _ Hloop _); [by eauto|].
    apply Hset. unfold stored. by rewrite Hsrc.
Qed.



End Fetches.



(** C6. During one [build_graph] call no name is passed to
    [get_direct_dependencies] twice: the sequence of the names fetched has
    no repetition. *)
Theorem build_graph_fetches_once src flt fuel root self c s' :
  build_graph src flt fuel root self = Some (c, s') ->
  NoDup (fetched s').
Proof.
  unfold build_graph. intros Hrun.
  apply _dfs_fetch_inv in Hrun as [Hnd _]; [done|].
  split; [apply NoDup_nil_2|]. intros k Hk. by apply elem_of_nil in Hk.
Qed.

Lemma build_graph_fetches_once_witness : NoDup ["A"; "B"].
Proof.
  refine (build_graph_fetches_once cycle_source "" 3 "A" fresh Returns
            (State {[ "A" := ["B"]; "B" := ["A"] ]} {[ "A"; "B" ]} ∅
                   [["A"; "B"; "A"]] ["A"; "B"]) _).
  vm_compute. reflexivity.
Defined.

(** ** Closure under listed dependencies *)

Section Closure.

Variable src : Source.
Variable flt : string.

(** What one call establishes: the invariant again, no key lost, the
    entries of the packages on the path untouched, and the package itself
    a key unless it is filtered. *)
Lemma _dfs_closure fuel : ∀ p s c s',
  _dfs src flt fuel p s = Some (c, s') ->
  closure_inv s ->
  closure_inv s' ∧
  dom (graph s) ⊆ dom (graph s') ∧
  (∀ k, k ∈ current_path s -> graph s' !! k = graph s !! k) ∧
  (should_filter_package flt p = false -> p ∈ dom (graph s')).
Proof.
  induction fuel as [|fuel IH]; intros p s c s' Hrun Hs; [discriminate|].
  apply _dfs_cases in Hrun as [_ Hcase].
  destruct Hcase as [Hf | _ Hin | _ _ Hv | _ Hp Hv _ | deps s2 _ Hp Hv _ Hloop].
  - split_and!; [done..|]. congruence.
  - destruct Hs as [Hs1 Hs2]. split_and!; [done..|]. intros _. simpl. set_solver.
  - destruct Hs as [Hs1 Hs2]. split_and!; [done..|]. intros _. set_solver.
  - destruct Hs as [Hs1 Hs2]. split_and!; simpl.
    + split; simpl.
      * rewrite dom_insert_L. set_solver.
      * intros k deps d Hk Hnk Hd. rewrite dom_insert_L.
        destruct (decide (p = k)) as [->|Hne].
        -- rewrite lookup_insert_eq in Hk. inversion Hk; subst.
           by apply elem_of_nil in Hd.
        -- rewrite lookup_insert_ne in Hk by done.
           apply elem_of_union_r. eapply Hs2; [done| |done]. set_solver.
    + rewrite dom_insert_L. set_solver.
    + intros k Hk. rewrite lookup_insert_ne; [done|]. by intros ->.
    + intros _. rewrite dom_insert_L. set_solver.
  - set (fd := List.filter _ deps) in *.
    set (s1 := set_graph p fd (enter p s)) in *.
    assert (closure_inv s1) as Hs1.
    { destruct Hs as [Hs1 Hs2]. split; simpl.
      - rewrite dom_insert_L. set_solver.
      - intros k deps' d Hk Hnk Hd. rewrite dom_insert_L.
        rewrite lookup_insert_ne in Hk by set_solver.
        apply elem_of_union_r. eapply Hs2; [done| |done]. set_solver. }
    pose proof (loop_run_path _ _ _ _ _ _ Hloop) as Hpath.
    pose (P := fun (rem : list string) (s0 : state) =>
      (∀ d, d ∈ rem -> should_filter_package flt d = false) ∧
      closure_inv s0 ∧ dom (graph s1) ⊆ dom (graph s0) ∧
      (∀ k, k ∈ current_path s1 -> graph s0 !! k = graph s1 !! k) ∧
      current_path s0 = current_path s1 ∧
      (∀ d, d ∈ fd -> d ∈ rem ∨ d ∈ dom (graph s0))).
    assert (P [] s2) as (_ & Hs2 & Hdom & Hframe & _ & Hfd).
    { apply (loop_run_inv (_dfs src flt fuel) P fd s1 s2); [|done|].
      - intros d rest s0 s1' (Hrest & Hc0 & Hd0 & Hf0 & Hp0 & Hr0) Hv'.
        pose proof (_dfs_returns _ _ _ _ _ _ _ Hv') as [_ Hp1].
        destruct (IH _ _ _ _ Hv' Hc0) as (Hc1 & Hd1 & Hf1 & Hk1).
        unfold P. split_and!; [|done|set_solver| |congruence|].
        + intros d' Hd'. apply Hrest. by right.
        + intros k Hk. rewrite Hf1 by congruence. by apply Hf0.
        + intros d' Hd'. destruct (Hr0 d' Hd') as [Hin|Hin]; [|set_solver].
          apply elem_of_cons in Hin as [->|Hin]; [|by left].
          right. apply Hk1. apply Hrest. by left.
      - unfold P. split_and!; [|done..|by left].
        intros d Hd. by apply elem_of_filtered in Hd as [_ ?]. }
    assert (∀ d, d ∈ fd -> d ∈ dom (graph s2)) as Hfd'.
    { intros d Hd. destruct (Hfd d Hd) as [Hin|Hin]; [|done].
      by apply elem_of_nil in Hin. }
    assert (graph s2 !! p = Some fd) as Hpfd.
    { rewrite Hframe by (simpl; set_solver). simpl. by rewrite lookup_insert_eq. }
    destruct Hs2 as [Hs2a Hs2b]. split_and!; simpl.
    + split; simpl.
      * rewrite Hpath in Hs2a. simpl in Hs2a. set_solver.
      * intros k deps' d Hk Hnk Hd.
        destruct (decide (k = p)) as [->|Hne].
        -- rewrite Hpfd in Hk. inversion Hk; subst. by apply Hfd'.
        -- eapply Hs2b; [done| |done]. rewrite Hpath. simpl. set_solver.
    + etrans; [|exact Hdom]. simpl. rewrite dom_insert_L. set_solver.
    + intros k Hk. rewrite Hframe by (simpl; set_solver). simpl.
      rewrite lookup_insert_ne; [done|]. by intros ->.
    + intros _. apply elem_of_dom. by eexists.
Qed.

End Closure.

(** C10. In a graph returned by [build_graph] every name occurring in the
    list of a key is itself a key. *)
Theorem build_graph_closed src flt fuel root self c s' :
  build_graph src flt fuel root self = Some (c, s') ->
  closed_graph (graph s').
Proof.
  unfold build_graph. intros Hrun.
  pose proof (_dfs_returns _ _ _ _ _ _ _ Hrun) as [_ Hpath].
  apply _dfs_closure in Hrun as [[_ Hcl] _].
  - intros k deps d Hk Hd. eapply Hcl; [done| |done].
    rewrite Hpath. simpl. set_solver.
  - split; simpl; [set_solver|]. intros k deps d Hk.
    by rewrite lookup_empty in Hk.
Qed.

Lemma build_graph_closed_witness :
  closed_graph {[ "A" := ["B"]; "B" := ["A"] ]}.
Proof.
  refine (build_graph_closed cycle_source "" 3 "A" fresh Returns
            (State {[ "A" := ["B"]; "B" := ["A"] ]} {[ "A"; "B" ]} ∅
                   [["A"; "B"; "A"]] ["A"; "B"]) _).
  vm_compute. reflexivity.
Defined.

(** ** Termination and the fuel *)

Section Fuel.

Variable src : Source.
Variable flt : string.

Lemma for_each_mono visit1 visit2 deps :
  (∀ d s r, visit1 d s = Some r -> visit2 d s = Some r) ->
  ∀ s r, for_each visit1 deps s = Some r -> for_each visit2 deps s = Some r.
Proof.
  intros Hmono. induction deps as [|d rest IH]; intros s r; simpl; [done|].
  destruct (visit1 d s) as [[c s1]|] eqn:Hv; [|done].
  rewrite (Hmono _ _ _ Hv). destruct c; auto.
Qed.

(** More fuel does not change the result of a call that ended. *)
Lemma _dfs_more_fuel fuel : ∀ p s r,
  _dfs src flt fuel p s = Some r -> _dfs src flt (S fuel) p s = Some r.
Proof.
  induction fuel as [|fuel IH]; intros p s r; [done|].
  rewrite (_dfs_unfold _ _ (S fuel)), (_dfs_unfold _ _ fuel).
  destruct (should_filter_package flt p); [done|].
  destruct (decide (p ∈ current_path s)); [done|].
  destruct (decide (p ∈ visited s)); [done|].
  unfold try_body. destruct (src p) as [deps|]; [|done].
  set (fd := List.filter _ deps). set (s1 := set_graph _ _ _).
  destruct (for_each (_dfs src flt fuel) fd s1) as [r0|] eqn:Hloop; [|done].
  by rewrite (for_each_mono _ _ _ IH _ _ Hloop).
Qed.

Lemma _dfs_fuel_le (fuel fuel' : nat) p s r :
  (fuel ≤ fuel')%nat ->
  _dfs src flt fuel p s = Some r -> _dfs src flt fuel' p s = Some r.
Proof. induction 1; auto using _dfs_more_fuel. Qed.

(** Two calls that ended agree, whatever their fuel. *)
Lemma _dfs_fuel_irrelevant fuel1 fuel2 p s r1 r2 :
  _dfs src flt fuel1 p s = Some r1 ->
  _dfs src flt fuel2 p s = Some r2 ->
  r1 = r2.
Proof.
  intros H1 H2. destruct (Nat.le_ge_cases fuel1 fuel2) as [Hle|Hle].
  - apply (_dfs_fuel_le _ _ _ _ _ Hle) in H1. congruence.
  - apply (_dfs_fuel_le _ _ _ _ _ Hle) in H2. congruence.
Qed.


End Fuel.


(** Without finiteness the model has no such bound: on [chain_source]
    every amount of fuel is used up. (The interpreter's recursion limit,
    which would cut such a run short, is not modelled.) *)
Lemma chain_source_diverges fuel : ∀ p s,
  (∀ q, q ∈ current_path s ∪ visited s ->
        (String.length q < String.length p)%nat) ->
  _dfs chain_source "" fuel p s = None.
Proof.
  induction fuel as [|fuel IH]; intros p s Hlt; [done|].
  rewrite _dfs_unfold. simpl.
  destruct (decide (p ∈ current_path s)) as [Hin|_].
  { assert (String.length p < String.length p)%nat; [|lia]. apply Hlt. set_solver. }
  destruct (decide (p ∈ visited s)) as [Hin|_].
  { assert (String.length p < String.length p)%nat; [|lia]. apply Hlt. set_solver. }
  unfold try_body. simpl. rewrite IH; [done|]. simpl.
  intros q Hq; assert (q = p ∨ q ∈ current_path s ∪ visited s) as [->|Hq']
    by set_solver; [lia|apply Hlt in Hq'; lia].
Qed.

Lemma chain_source_never_ends fuel root self :
  build_graph chain_source "" fuel root self = None.
Proof.
  apply chain_source_diverges. simpl. intros q Hq. set_solver.
Qed.


(** A stub file is a finite source: a result only holds names written in
    the file. *)
Lemma scan_record_deps lines p d :
  In d (DependencyFetcher.scan lines p) -> In d (flat_map record_deps lines).
Proof.
  induction lines as [|line rest IH]; simpl; [done|].
  intros Hd. apply in_or_app.
  destruct (negb (PyStr.truthy (PyStr.strip line))
            || PyStr.startswith_char "#" (PyStr.strip line)); [auto|].
  destruct (PyStr.has_char ":" (PyStr.strip line)); [|auto].
  destruct (String.eqb _ _); [|auto].
  left. unfold record_deps.
  destruct (1 <? length (PyStr.split_char_once ":" (PyStr.strip line)))%nat;
    [|done].
  by destruct (PyStr.truthy _).
Qed.



(** C8. A second [build_graph] call with the same root on the same builder,
    the source and the filter being unchanged, ends like the first and
    returns the same graph: the same keys with the same lists. The
    attributes left by the first call play no part, since the call starts
    by resetting them. *)
Theorem build_graph_twice src flt fuel root self c1 s1 :
  build_graph src flt fuel root self = Some (c1, s1) ->
  build_graph src flt fuel root s1 = Some (c1, s1) ∧
  ∀ fuel2 c2 s2,
    build_graph src flt fuel2 root s1 = Some (c2, s2) ->
    graph s2 = graph s1 ∧ dom (graph s2) = dom (graph s1).
Proof.
  unfold build_graph. intros Hrun. split; [exact Hrun|].
  intros fuel2 c2 s2 Hrun2.
  change (reset s1) with (reset self) in Hrun2.
  pose proof (_dfs_fuel_irrelevant _ _ _ _ _ _ _ _ Hrun Hrun2) as Heq.
  by inversion Heq.
Qed.

Lemma build_graph_twice_witness :
  build_graph cycle_source "" 3 "A"
    (State {[ "A" := ["B"]; "B" := ["A"] ]} {[ "A"; "B" ]} ∅
           [["A"; "B"; "A"]] ["A"; "B"]) =
  Some (Returns,
        State {[ "A" := ["B"]; "B" := ["A"] ]} {[ "A"; "B" ]} ∅
              [["A"; "B"; "A"]] ["A"; "B"]) ∧
  ∀ fuel2 c2 s2,
    build_graph cycle_source "" fuel2 "A"
      (State {[ "A" := ["B"]; "B" := ["A"] ]} {[ "A"; "B" ]} ∅
             [["A"; "B"; "A"]] ["A"; "B"]) = Some (c2, s2) ->
    graph s2 = {[ "A" := ["B"]; "B" := ["A"] ]} ∧
    dom (graph s2) = dom ({[ "A" := ["B"]; "B" := ["A"] ]}
                            : gmap string (list string)).
Proof.
  refine (build_graph_twice cycle_source "" 3 "A" fresh Returns
            (State {[ "A" := ["B"]; "B" := ["A"] ]} {[ "A"; "B" ]} ∅
                   [["A"; "B"; "A"]] ["A"; "B"]) _).
  vm_compute. reflexivity.
Defined.

(** ** Reverse dependencies *)

Lemma elem_of_collect_dependents items X p :
  p ∈ collect_dependents items X ↔ ∃ deps, (p, deps) ∈ items ∧ X ∈ deps.
Proof.
  induction items as [|[q ds] rest IH]; simpl.
  - split; [by intros ?%elem_of_nil|]. by intros (? & ?%elem_of_nil & _).
  - destruct (decide (X ∈ ds)) as [HX|HX].
    + rewrite elem_of_cons, IH. split.
      * intros [->|(deps & Hin & Hd)]; [exists ds|exists deps];
          (split; [|done]); [by left|by right].
      * intros (deps & Hin & Hd). apply elem_of_cons in Hin as [Heq|Hin].
        -- inversion Heq; subst. by left.
        -- right. eauto.
    + rewrite IH. split.
      * intros (deps & Hin & Hd). exists deps. split; [by right|done].
      * intros (deps & Hin & Hd). apply elem_of_cons in Hin as [Heq|Hin].
        -- inversion Heq; subst. done.
        -- eauto.
Qed.

Lemma NoDup_collect_dependents items X :
  NoDup items.*1 -> NoDup (collect_dependents items X).
Proof.
  induction items as [|[q ds] rest IH]; simpl; [by constructor|].
  intros Hnd. apply NoDup_cons in Hnd as [Hq Hnd].
  destruct (decide (X ∈ ds)); [|auto].
  apply NoDup_cons. split; [|auto].
  intros (deps & Hin & _)%elem_of_collect_dependents.
  apply Hq, list_elem_of_fmap. by exists (q, deps).
Qed.

(** C7. On any graph a builder holds, [get_reverse_dependencies] returns,
    each once, exactly the keys whose list contains the target; the result
    is empty when no list contains it. The function reads the [graph]
    attribute only: it takes no source. *)
Theorem get_reverse_dependencies_exact (self : state) (X : string) :
  (∀ p, p ∈ get_reverse_dependencies self X ↔
        ∃ deps, graph self !! p = Some deps ∧ X ∈ deps) ∧
  NoDup (get_reverse_dependencies self X) ∧
  ((∀ p deps, graph self !! p = Some deps -> X ∉ deps) ->
   get_reverse_dependencies self X = []).
Proof.
  unfold get_reverse_dependencies.
  assert (∀ p, p ∈ collect_dependents (map_to_list (graph self)) X ↔
               ∃ deps, graph self !! p = Some deps ∧ X ∈ deps) as Hiff.
  { intros p. rewrite elem_of_collect_dependents.
    by setoid_rewrite elem_of_map_to_list. }
  split_and!; [done| |].
  - apply NoDup_collect_dependents, NoDup_fst_map_to_list.
  - intros Hnone. apply elem_of_nil_inv. intros p Hp.
    apply Hiff in Hp as (deps & Hk & HX). by eapply Hnone.
Qed.

(** ** The two-node cycle *)

Lemma two_cycle_run (n : nat) (self : state) :
  build_graph cycle_source (stored_filter "") (3 + n) "A" self =
  Some (Returns,
        State {[ "A" := ["B"]; "B" := ["A"] ]} {[ "A"; "B" ]} ∅
              [["A"; "B"; "A"]] ["A"; "B"]).
Proof. vm_compute. reflexivity. Qed.

(** C4, as the code behaves. On the source with the records A: B and B: A
    and no filter, [build_graph] from A returns the graph in which A lists
    B and B lists A: the list of a package is stored before its
    dependencies are visited, so the back-edge stays in the entry of B. *)
Theorem two_cycle_graph (n : nat) (self : state) :
  ∃ s', build_graph cycle_source (stored_filter "") (3 + n) "A" self
        = Some (Returns, s') ∧
        graph s' = {[ "A" := ["B"]; "B" := ["A"] ]} ∧
        fetched s' = ["A"; "B"].
Proof. eexists. split; [apply two_cycle_run|]. done. Qed.

(** C4, as stated, fails: the entry of B is neither empty nor absent, and
    the two lists A -> [B] and B -> [A] are the ones returned. *)
Lemma two_cycle_keeps_back_edge :
  ∃ s', build_graph cycle_source (stored_filter "") 3 "A" fresh
        = Some (Returns, s') ∧
        graph s' !! "A" = Some ["B"] ∧
        graph s' !! "B" = Some ["A"] ∧
        graph s' !! "B" ≠ Some [] ∧
        graph s' !! "B" ≠ None.
Proof.
  eexists. split; [apply (two_cycle_run 0)|]. by vm_compute.
Qed.

(** C5. On the same source, [build_graph] from A records a cycle that
    contains both A and B, and the graph has the keys A and B. *)
Theorem two_cycle_recorded (n : nat) (self : state) :
  ∃ s', build_graph cycle_source (stored_filter "") (3 + n) "A" self
        = Some (Returns, s') ∧
        (∃ cycle, cycle ∈ get_cycles s' ∧ "A" ∈ cycle ∧ "B" ∈ cycle) ∧
        "A" ∈ dom (graph s') ∧ "B" ∈ dom (graph s').
Proof.
  eexists. split; [apply two_cycle_run|]. split_and!.
  - exists ["A"; "B"; "A"]. unfold get_cycles. simpl. set_solver.
  - apply elem_of_dom. by exists ["B"].
  - apply elem_of_dom. by exists ["A"].
Qed.

Lemma two_cycle_needs_depth_three (self : state) :
  build_graph cycle_source (stored_filter "") 2 "A" self = None.
Proof. vm_compute. reflexivity. Qed.

(** ** The requirement strings of the package index *)

(** C9, on the code. A requirement that carries its version constraint
    without a blank or a parenthesis, and one that carries an environment
    marker, keep them: the name returned is not the bare identifier. *)
Theorem parse_requirement_keeps_constraint :
  DependencyFetcher.parse_requirement "package>=1.0" = Some "package>=1.0" ∧
  DependencyFetcher.parse_requirement "package; python_version < '3'"
    = Some "package;" ∧
  DependencyFetcher._get_dependencies_from_pypi
    (DependencyFetcher.Document (Some ["package"; "package>=1.0"]))
    = Some ["package"; "package>=1.0"].
Proof. by vm_compute. Qed.

(** ** The state a build ends in *)

Section Keys.

Variable src : Source.
Variable flt : string.

Lemma keys_inv_enter p v s :
  keys_inv s -> keys_inv (set_graph p v (enter p s)).
Proof.
  intros [Hdom Hf]. split; simpl.
  - rewrite dom_insert_L, Hdom. set_solver.
  - intros k. rewrite elem_of_app, list_elem_of_singleton, dom_insert_L, Hf.
    set_solver.
Qed.

Lemma keys_inv_leave p s :
  p ∈ current_path s -> keys_inv s -> keys_inv (leave p s).
Proof.
  intros Hp [Hdom Hf]. split; simpl; [|done].
  rewrite Hdom. apply set_eq. intros x.
  destruct (decide (x = p)) as [->|]; set_solver.
Qed.

Lemma _dfs_keys_inv fuel : ∀ p s c s',
  _dfs src flt fuel p s = Some (c, s') -> keys_inv s -> keys_inv s'.
Proof.
  induction fuel as [|fuel IH]; intros p s c s' Hrun Hs; [discriminate|].
  apply _dfs_cases in Hrun as [_ Hcase].
  destruct Hcase as [ | | | _ Hp Hv _ | deps s2 _ Hp Hv _ Hloop]; try done.
  - apply keys_inv_leave; [simpl; set_solver|]. by apply keys_inv_enter.
  - pose proof (loop_run_path _ _ _ _ _ _ Hloop) as Hpath.
    apply keys_inv_leave; [rewrite Hpath; simpl; set_solver|].
    apply (loop_run_inv _ (fun _ s0 => keys_inv s0)) in Hloop;
      [done|by eauto|].
    by apply keys_inv_enter.
Qed.

Lemma built_keys fuel root self c s' :
  build_graph src flt fuel root self = Some (c, s') ->
  keys_inv s' ∧ current_path s' = ∅.
Proof.
  unfold build_graph. intros Hrun. split.
  - apply _dfs_keys_inv in Hrun; [done|]. split; simpl.
    + rewrite dom_empty_L. set_solver.
    + intros k. rewrite dom_empty_L. split; [by intros ?%elem_of_nil|set_solver].
  - by apply _dfs_returns in Hrun as [_ ->].
Qed.

Lemma built_entries fuel root self c s' :
  build_graph src flt fuel root self = Some (c, s') ->
  ∀ k, k ∈ dom (graph s') -> graph s' !! k = Some (stored src flt k).
Proof.
  intros Hrun k Hk. pose proof (built_keys _ _ _ _ _ Hrun) as [[_ Hf] _].
  unfold build_graph in Hrun.
  eapply _dfs_stored; [exact Hrun| |by apply Hf].
  intros k' Hk'. by apply elem_of_nil in Hk'.
Qed.

End Keys.

(** ** Reachability *)

Section Reach.

Variable src : Source.
Variable flt : string.
Variable root : string.

Lemma _dfs_reach fuel : ∀ p s c s',
  _dfs src flt fuel p s = Some (c, s') ->
  (should_filter_package flt p = false -> reach src flt root p) ->
  (∀ k, k ∈ dom (graph s) -> reach src flt root k) ->
  ∀ k, k ∈ dom (graph s') -> reach src flt root k.
Proof.
  induction fuel as [|fuel IH]; intros p s c s' Hrun Hp Hs; [discriminate|].
  apply _dfs_cases in Hrun as [_ Hcase].
  destruct Hcase as [ | | | Hf _ _ _ | deps s2 Hf _ _ Hsrc Hloop]; try done.
  - simpl. intros k. rewrite dom_insert_L, elem_of_union, elem_of_singleton.
    intros [->|Hk]; auto.
  - set (fd := List.filter _ deps) in *.
    change (∀ k, k ∈ dom (graph s2) -> reach src flt root k).
    assert (fd = stored src flt p) as Hfd by (unfold stored; by rewrite Hsrc).
    pose (P := fun (rem : list string) (s0 : state) =>
      (∀ d, d ∈ rem -> d ∈ fd) ∧
      ∀ k, k ∈ dom (graph s0) -> reach src flt root k).
    assert (P [] s2) as [_ Hdone]; [|done].
    apply (loop_run_inv (_dfs src flt fuel) P fd
             (set_graph p fd (enter p s)) s2); [|done|].
    + intros d rest s0 s1 [Hrest Hs0] Hv. split.
      * intros d' Hd'. apply Hrest. by right.
      * eapply IH; [exact Hv| |done]. intros _.
        apply (reach_step _ _ _ p); [auto|]. rewrite <- Hfd. apply Hrest. by left.
    + split; [done|]. simpl. intros k.
      rewrite dom_insert_L, elem_of_union, elem_of_singleton.
      intros [->|Hk]; auto.
Qed.

Lemma built_reach fuel self c s' :
  build_graph src flt fuel root self = Some (c, s') ->
  ∀ k, k ∈ dom (graph s') ↔ reach src flt root k.
Proof.
  intros Hrun k.
  pose proof (built_entries _ _ _ _ _ _ _ Hrun) as Hentries.
  pose proof (built_keys _ _ _ _ _ _ _ Hrun) as [_ Hpath].
  unfold build_graph in Hrun. split.
  - revert k. eapply _dfs_reach; [exact Hrun|by constructor|].
    simpl. intros k. by rewrite dom_empty_L.
  - apply _dfs_closure in Hrun as ([_ Hcl] & _ & _ & Hroot).
    + induction 1 as [Hf|k d Hk IH Hd]; [auto|].
      eapply Hcl; [by apply Hentries| |exact Hd]. rewrite Hpath. set_solver.
    + split; simpl; [set_solver|]. intros k' deps d Hk'.
      by rewrite lookup_empty in Hk'.
Qed.

End Reach.

(** ** Cycle records *)

Section Cycles.

Variable src : Source.
Variable flt : string.

Lemma cycle_record_mono (g g' : gmap string (list string)) c :
  dom g ⊆ dom g' -> cycle_record g c -> cycle_record g' c.
Proof.
  intros Hsub (body & p & -> & Hp & Hnd & Hkeys).
  exists body, p. split_and!; [done..|]. intros x Hx. apply Hsub. auto.
Qed.

Lemma closure_inv_enter p v s :
  p ∉ current_path s -> closure_inv s ->
  closure_inv (set_graph p v (enter p s)).
Proof.
  intros Hp [Hs1 Hs2]. split; simpl.
  - rewrite dom_insert_L. set_solver.
  - intros k deps d Hk Hnk Hd. rewrite dom_insert_L.
    rewrite lookup_insert_ne in Hk by set_solver.
    apply elem_of_union_r. eapply Hs2; [done| |done]. set_solver.
Qed.

Lemma _dfs_cycle_records fuel : ∀ p s c s',
  _dfs src flt fuel p s = Some (c, s') ->
  closure_inv s ->
  (∀ r, r ∈ cycles s -> cycle_record (graph s) r) ->
  ∀ r, r ∈ cycles s' -> cycle_record (graph s') r.
Proof.
  induction fuel as [|fuel IH]; intros p s c s' Hrun Hcl Hs; [discriminate|].
  apply _dfs_cases in Hrun as [_ Hcase].
  destruct Hcase as [ | _ Hin | | _ Hp _ _ | deps s2 _ Hp _ _ Hloop]; try done.
  - simpl. intros r [Hr|Hr]%elem_of_app; [auto|].
    apply list_elem_of_singleton in Hr as ->.
    exists (elements (current_path s)), p. split_and!; [done| |apply NoDup_elements|].
    + by apply elem_of_elements.
    + intros x Hx%elem_of_elements. destruct Hcl as [Hcl _]. set_solver.
  - simpl. intros r Hr. eapply cycle_record_mono; [|by apply Hs].
    rewrite dom_insert_L. set_solver.
  - set (fd := List.filter _ deps) in *.
    change (∀ r, r ∈ cycles s2 -> cycle_record (graph s2) r).
    pose (P := fun (_ : list string) (s0 : state) =>
      closure_inv s0 ∧ ∀ r, r ∈ cycles s0 -> cycle_record (graph s0) r).
    assert (P [] s2) as [_ Hdone]; [|done].
    apply (loop_run_inv (_dfs src flt fuel) P fd
             (set_graph p fd (enter p s)) s2); [|done|].
    + intros d rest s0 s1 [Hc0 Hr0] Hv. split.
      * by apply (_dfs_closure _ _ _ _ _ _ _ Hv).
      * by eapply IH.
    + split; [by apply closure_inv_enter|].
      simpl. intros r Hr. eapply cycle_record_mono; [|by apply Hs].
      rewrite dom_insert_L. set_solver.
Qed.

Lemma built_cycle_records fuel root self c s' :
  build_graph src flt fuel root self = Some (c, s') ->
  ∀ r, r ∈ cycles s' -> cycle_record (graph s') r.
Proof.
  unfold build_graph. intros Hrun. eapply _dfs_cycle_records; [exact Hrun| |].
  - split; simpl; [set_solver|]. intros k deps d Hk.
    by rewrite lookup_empty in Hk.
  - simpl. by intros r ?%elem_of_nil.
Qed.

End Cycles.

(** ** What a build returns *)

Lemma cycle_final_run :
  build_graph cycle_source "" 3 "A" fresh = Some (Returns, cycle_final).
Proof. vm_compute. reflexivity. Qed.

(** X1. When [build_graph] returns, the current path is empty, the visited
    set is the set of keys of the graph, and the keys are exactly the names
    that were fetched. *)
Theorem build_graph_final_state src flt fuel root self c s' :
  build_graph src flt fuel root self = Some (c, s') ->
  current_path s' = ∅ ∧
  visited s' = dom (graph s') ∧
  ∀ k, k ∈ fetched s' ↔ k ∈ dom (graph s').
Proof.
  intros Hrun. destruct (built_keys _ _ _ _ _ _ _ Hrun) as [[Hdom Hf] Hpath].
  split_and!; [done| |done]. rewrite Hdom, Hpath. set_solver.
Qed.

Lemma build_graph_final_state_witness :
  current_path cycle_final = ∅ ∧
  visited cycle_final = dom (graph cycle_final) ∧
  ∀ k, k ∈ fetched cycle_final ↔ k ∈ dom (graph cycle_final).
Proof.
  exact (build_graph_final_state cycle_source "" 3 "A" fresh Returns cycle_final
           cycle_final_run).
Defined.

(** X2. The list stored for a key of the returned graph is the answer of
    the source for that key with the filtered names dropped, in the order
    of the answer, and the empty list when the fetch raised. *)
Theorem build_graph_entries src flt fuel root self c s' :
  build_graph src flt fuel root self = Some (c, s') ->
  ∀ k deps, graph s' !! k = Some deps -> deps = stored src flt k.
Proof.
  intros Hrun k deps Hk.
  rewrite (built_entries _ _ _ _ _ _ _ Hrun k) in Hk.
  - by inversion Hk.
  - apply elem_of_dom. by eexists.
Qed.

Lemma build_graph_entries_witness : ["A"] = stored cycle_source "" "B".
Proof.
  refine (build_graph_entries cycle_source "" 3 "A" fresh Returns cycle_final
            cycle_final_run "B" ["A"] _).
  vm_compute. reflexivity.
Defined.

(** X3. The keys of the returned graph are exactly the packages reachable
    from the root: the root unless it is filtered, and every name in the
    stored list of a reachable package. In particular the graph is empty
    when the root is filtered. *)
Theorem build_graph_reachable src flt fuel root self c s' :
  build_graph src flt fuel root self = Some (c, s') ->
  ∀ k, k ∈ dom (graph s') ↔ reach src flt root k.
Proof. apply built_reach. Qed.

Lemma build_graph_reachable_witness :
  "B" ∈ dom (graph cycle_final) ↔ reach cycle_source "" "A" "B".
Proof.
  exact (build_graph_reachable cycle_source "" 3 "A" fresh Returns cycle_final
           cycle_final_run "B").
Defined.

(** X4. Every cycle record of a build consists of distinct keys of the
    returned graph followed by one of them again. *)
Theorem build_graph_cycle_records src flt fuel root self c s' :
  build_graph src flt fuel root self = Some (c, s') ->
  ∀ r, r ∈ get_cycles s' -> cycle_record (graph s') r.
Proof. apply built_cycle_records. Qed.

Lemma build_graph_cycle_records_witness :
  cycle_record (graph cycle_final) ["A"; "B"; "A"].
Proof.
  refine (build_graph_cycle_records cycle_source "" 3 "A" fresh Returns
            cycle_final cycle_final_run ["A"; "B"; "A"] _).
  apply list_elem_of_here.
Defined.

(** X5. After a build, the reverse dependencies of a target are exactly
    the reachable packages whose stored list contains the target. *)
Theorem reverse_dependencies_after_build src flt fuel root self c s' :
  build_graph src flt fuel root self = Some (c, s') ->
  ∀ X p, p ∈ get_reverse_dependencies s' X ↔
         reach src flt root p ∧ X ∈ stored src flt p.
Proof.
  intros Hrun X p. unfold get_reverse_dependencies.
  rewrite elem_of_collect_dependents.
  pose proof (built_entries _ _ _ _ _ _ _ Hrun) as Hentries.
  pose proof (built_reach _ _ _ _ _ _ _ Hrun) as Hreach.
  split.
  - intros (deps & Hk%elem_of_map_to_list & HX).
    assert (p ∈ dom (graph s')) as Hp by (apply elem_of_dom; by eexists).
    rewrite (Hentries _ Hp) in Hk. inversion Hk; subst.
    split; [by apply Hreach|done].
  - intros [Hp%Hreach HX]. exists (stored src flt p).
    split; [|done]. by apply elem_of_map_to_list, Hentries.
Qed.

Lemma reverse_dependencies_after_build_witness :
  "A" ∈ get_reverse_dependencies cycle_final "B" ↔
  reach cycle_source "" "A" "A" ∧ "B" ∈ stored cycle_source "" "A".
Proof.
  exact (reverse_dependencies_after_build cycle_source "" 3 "A" fresh Returns
           cycle_final cycle_final_run "B" "A").
Defined.

(** ** Facts about the string methods *)

Lemma app_empty_r (s : string) : s ++ "" = s.
Proof. induction s as [|c s IH]; [done|]. by rewrite app_String, IH. Qed.

Lemma app_assoc_string (a b c : string) : (a ++ b) ++ c = a ++ b ++ c.
Proof. induction a as [|x a IH]; [done|]. by rewrite !app_String, IH. Qed.

Lemma length_app_string (a b : string) :
  String.length (a ++ b) = (String.length a + String.length b)%nat.
Proof. induction a as [|x a IH]; [done|]. rewrite app_String. simpl. by rewrite IH. Qed.

Lemma app_inv_tail_string (a b t : string) : a ++ t = b ++ t -> a = b.
Proof.
  intros Heq.
  assert (String.length a = String.length b) as Hlen.
  { apply (f_equal String.length) in Heq.
    rewrite !length_app_string in Heq. lia. }
  revert b Heq Hlen. induction a as [|x a IH]; intros [|y b] Heq Hlen;
    try done.
  rewrite !app_String in Heq. inversion Heq; subst. f_equal.
  apply IH; [done|]. simpl in Hlen. lia.
Qed.

Lemma no_space_app a b : no_space (a ++ b) = no_space a && no_space b.
Proof.
  induction a as [|c a IH]; [done|].
  rewrite app_String. simpl. by rewrite IH, andb_assoc.
Qed.

Lemma has_char_app c a b :
  PyStr.has_char c (a ++ b) = PyStr.has_char c a || PyStr.has_char c b.
Proof.
  induction a as [|d a IH]; [done|].
  rewrite app_String. simpl. by destruct (ascii_dec c d).
Qed.

Lemma lstrip_no_space s : no_space s = true -> PyStr.lstrip s = s.
Proof.
  destruct s as [|c s]; [done|]. simpl.
  intros [Hc _]%andb_true_iff. by destruct (PyStr.is_space c).
Qed.

Lemma rstrip_no_space s : no_space s = true -> PyStr.rstrip s = s.
Proof.
  induction s as [|c s IH]; [done|]. simpl.
  intros [Hc Hs]%andb_true_iff. rewrite (IH Hs).
  destruct s; [|done]. by destruct (PyStr.is_space c).
Qed.

Lemma strip_no_space s : no_space s = true -> PyStr.strip s = s.
Proof.
  intros Hs. unfold PyStr.strip. rewrite (lstrip_no_space _ Hs).
  by apply rstrip_no_space.
Qed.

Lemma lstrip_all_space s : all_space s = true -> PyStr.lstrip s = "".
Proof.
  induction s as [|c s IH]; [done|]. simpl.
  intros [Hc Hs]%andb_true_iff. rewrite Hc. auto.
Qed.

Lemma all_space_lstrip s : all_space (PyStr.lstrip s) = all_space s.
Proof.
  induction s as [|c s IH]; [done|]. simpl.
  destruct (PyStr.is_space c) eqn:Hc; [done|]. simpl. by rewrite Hc.
Qed.

Lemma rstrip_empty s : PyStr.rstrip s = "" ↔ all_space s = true.
Proof.
  induction s as [|c s IH]; [done|]. simpl.
  destruct (PyStr.rstrip s) eqn:Hr.
  - destruct (PyStr.is_space c); simpl; [|done].
    split; [intros _; by apply IH|done].
  - split; [done|]. intros [_ Hs]%andb_true_iff. by apply IH in Hs.
Qed.

(** [strip] gives the empty string exactly on strings of blanks. *)
Lemma strip_empty s : PyStr.strip s = "" ↔ all_space s = true.
Proof. unfold PyStr.strip. by rewrite rstrip_empty, all_space_lstrip. Qed.

(** The words of [split]: none when the string is blank, and each of them
    not empty and free of blanks. *)
Lemma split_go_nil cur s :
  PyStr.split_go cur s = [] ↔ cur = None ∧ all_space s = true.
Proof.
  revert cur. induction s as [|c s IH]; intros cur; simpl.
  - destruct cur; naive_solver.
  - destruct (PyStr.is_space c); simpl.
    + destruct cur; [naive_solver|]. rewrite IH. naive_solver.
    + rewrite IH. naive_solver.
Qed.

Lemma split_go_words cur s :
  (∀ w, cur = Some w -> w ≠ "" ∧ no_space w = true) ->
  Forall (fun w => w ≠ "" ∧ no_space w = true) (PyStr.split_go cur s).
Proof.
  revert cur. induction s as [|c s IH]; intros cur Hcur; simpl.
  - destruct cur; [|constructor]. constructor; [auto|constructor].
  - destruct (PyStr.is_space c) eqn:Hc.
    + destruct cur; [constructor; [auto|]|]; apply IH; by intros.
    + apply IH. intros w Hw. inversion Hw; subst. split.
      * destruct cur as [[|]|]; done.
      * rewrite no_space_app. simpl. rewrite Hc. simpl.
        destruct cur as [w0|]; [|done].
        destruct (Hcur w0 eq_refl) as [_ ->]. done.
Qed.

Lemma split_go_run w name s :
  no_space name = true ->
  PyStr.split_go (Some w) (name ++ s) = PyStr.split_go (Some (w ++ name)) s.
Proof.
  revert w. induction name as [|c name IH]; intros w Hname.
  - by rewrite app_empty_r.
  - simpl in Hname. apply andb_true_iff in Hname as [Hc Hname].
    apply negb_true_iff in Hc. rewrite app_String. simpl. rewrite Hc.
    rewrite (IH _ Hname), app_assoc_string. done.
Qed.

Lemma split_go_head w s :
  ∃ r, head (PyStr.split_go (Some w) s) = Some (w ++ r).
Proof.
  revert w. induction s as [|c s IH]; intros w; simpl.
  - exists "". by rewrite app_empty_r.
  - destruct (PyStr.is_space c).
    + exists "". by rewrite app_empty_r.
    + destruct (IH (w ++ String c "")) as [r Hr].
      exists (String c r). by rewrite Hr, app_assoc_string.
Qed.

(** The first piece of [split_char]: a prefix free of the separator. *)
Lemma split_char_head sep s :
  ∃ a t, head (PyStr.split_char sep s) = Some a ∧ s = a ++ t ∧
         PyStr.has_char sep a = false.
Proof.
  induction s as [|c s (a & t & Ha & Hs & Hfree)]; simpl.
  - by exists "", "".
  - destruct (ascii_dec c sep) as [->|Hne].
    + by exists "", (String sep s).
    + destruct (PyStr.split_char sep s) as [|w ws]; [done|].
      simpl in Ha. inversion Ha; subst w.
      exists (String c a), t. split_and!; [done|by rewrite app_String, <- Hs|].
      simpl. by destruct (ascii_dec sep c) as [->|].
Qed.

Lemma split_char_head_app sep u v :
  PyStr.has_char sep u = false ->
  ∃ v', head (PyStr.split_char sep v) = Some v' ∧
        head (PyStr.split_char sep (u ++ v)) = Some (u ++ v').
Proof.
  intros Hu. induction u as [|c u IH].
  - destruct (split_char_head sep v) as (a & t & Ha & _). by exists a.
  - simpl in Hu. destruct (ascii_dec sep c) as [|Hne]; [done|].
    destruct (IH Hu) as (v' & Hv' & Huv). exists v'. split; [done|].
    rewrite app_String. simpl.
    destruct (ascii_dec c sep) as [->|_]; [done|].
    destruct (PyStr.split_char sep (u ++ v)) as [|w ws]; [done|].
    simpl in Huv. by inversion Huv.
Qed.

Lemma split_char_head_free sep u :
  PyStr.has_char sep u = false ->
  head (PyStr.split_char sep u) = Some u.
Proof.
  intros Hu. destruct (split_char_head_app sep u "" Hu) as (v' & Hv' & Huv).
  simpl in Hv'. inversion Hv'; subst. by rewrite !app_empty_r in Huv.
Qed.

Lemma split_char_head_cut sep u v :
  PyStr.has_char sep u = false ->
  head (PyStr.split_char sep (u ++ String sep v)) = Some u.
Proof.
  intros Hu.
  destruct (split_char_head_app sep u (String sep v) Hu) as (v' & Hv' & Huv).
  simpl in Hv'. destruct (ascii_dec sep sep); [|done].
  simpl in Hv'. inversion Hv'; subst. by rewrite app_empty_r in Huv.
Qed.

(** ** The lookups of the fetcher *)

Lemma parse_requirement_none req :
  DependencyFetcher.parse_requirement req = None ↔ all_space req = true.
Proof.
  unfold DependencyFetcher.parse_requirement, PyStr.split.
  destruct (PyStr.split_go None req) as [|w ws] eqn:Hsplit; simpl.
  - apply split_go_nil in Hsplit as [_ ?]. done.
  - split; [|intros Hblank].
    + destruct (split_char_head "(" w) as (a & t & -> & _). simpl.
      by destruct (split_char_head "[" a) as (b & t' & -> & _).
    + assert (PyStr.split_go None req = []) as Hnil by by apply split_go_nil.
      congruence.
Qed.

Lemma parse_requirement_some req dep :
  DependencyFetcher.parse_requirement req = Some dep ->
  no_space dep = true ∧
  PyStr.has_char "(" dep = false ∧ PyStr.has_char "[" dep = false.
Proof.
  unfold DependencyFetcher.parse_requirement, PyStr.split.
  pose proof (split_go_words None req) as Hwords.
  destruct (PyStr.split_go None req) as [|w ws]; simpl; [done|].
  apply Forall_cons in Hwords as [[_ Hw] _]; [|done].
  destruct (split_char_head "(" w) as (a & t & -> & -> & Ha). simpl.
  destruct (split_char_head "[" a) as (b & t' & -> & -> & Hb). simpl.
  rewrite !no_space_app in Hw.
  apply andb_true_iff in Hw as [[Hw _]%andb_true_iff _].
  rewrite has_char_app in Ha. apply orb_false_iff in Ha as [Ha _].
  intros Heq. inversion Heq; subst. by rewrite strip_no_space.
Qed.

Lemma collect_none reqs : ∀ acc,
  DependencyFetcher.collect reqs acc = None ↔
  Exists (fun req => all_space req = true) reqs.
Proof.
  induction reqs as [|req reqs IH]; intros acc; simpl.
  - split; [done|]. by intros ?%Exists_nil.
  - rewrite Exists_cons.
    destruct (DependencyFetcher.parse_requirement req) as [dep|] eqn:Hreq; simpl.
    + rewrite IH. split; [by right|]. intros [Hblank|]; [|done].
      apply parse_requirement_none in Hblank. congruence.
    + apply parse_requirement_none in Hreq. split; [by left|done].
Qed.

Lemma collect_bare reqs : ∀ acc deps,
  DependencyFetcher.collect reqs acc = Some deps ->
  Forall bare acc -> Forall bare deps.
Proof.
  induction reqs as [|req reqs IH]; intros acc deps; simpl.
  - by intros [= ->].
  - destruct (DependencyFetcher.parse_requirement req) as [dep|] eqn:Hreq;
      simpl; [|done].
    intros Hrun Hacc. apply (IH _ _ Hrun).
    destruct dep as [|c dep]; [done|]. simpl.
    apply Forall_app. split; [done|]. apply Forall_singleton.
    apply parse_requirement_some in Hreq as (? & ? & ?). by split.
Qed.

(** X6. The index lookup raises on a document some entry of which is
    blank (empty or made of blanks), and on no other document: the
    [IndexError] of the first [[0]] is the only failure of the parsing. *)
Theorem pypi_lookup_fails_on_blank_entry (requires_dist : list string) :
  DependencyFetcher._get_dependencies_from_pypi
    (DependencyFetcher.Document (Some requires_dist)) = None ↔
  Exists (fun req => all_space req = true) requires_dist.
Proof. apply collect_none. Qed.

(** X7. Every name the index lookup returns is not empty and holds no
    blank, no opening parenthesis and no opening bracket. *)
Theorem pypi_lookup_names_bare reply deps :
  DependencyFetcher._get_dependencies_from_pypi reply = Some deps ->
  Forall bare deps.
Proof.
  destruct reply as [code| |[reqs|]]; simpl; try done.
  - intros Hrun. by apply (collect_bare _ _ _ Hrun).
  - by intros [= <-].
Qed.

Lemma pypi_lookup_names_bare_witness : Forall bare ["requests"; "idna"].
Proof.
  refine (pypi_lookup_names_bare
            (DependencyFetcher.Document
               (Some ["requests (>=2.0)"; "(>=1.0)"; "idna[extra] ; x"]))
            ["requests"; "idna"] _).
  vm_compute. reflexivity.
Defined.

(** X8. A requirement that is a bare name, or a bare name followed by a
    blank, an opening parenthesis or an opening bracket and anything else,
    is parsed to that name. *)
Theorem parse_requirement_bare_name name sep rest :
  bare name ->
  PyStr.is_space sep = true ∨ sep = "("%char ∨ sep = "["%char ->
  DependencyFetcher.parse_requirement name = Some name ∧
  DependencyFetcher.parse_requirement (name ++ String sep rest) = Some name.
Proof.
  intros (Hne & Hsp & Hpar & Hbr) Hsep.
  assert (∀ s, PyStr.split_go None (name ++ s) = PyStr.split_go (Some name) s)
    as Hfirst.
  { intros s. destruct name as [|c name]; [done|].
    simpl in Hsp. apply andb_true_iff in Hsp as [Hc Hsp].
    apply negb_true_iff in Hc. rewrite app_String. simpl. rewrite Hc.
    by rewrite (split_go_run _ _ _ Hsp). }
  assert (∀ c s, PyStr.is_space c = false ->
            ∃ r, head (PyStr.split_go None (name ++ String c s))
                 = Some (name ++ String c r)) as Hword.
  { intros c s Hc. rewrite Hfirst. simpl. rewrite Hc.
    destruct (split_go_head (name ++ String c "") s) as [r Hr].
    exists r. by rewrite Hr, app_assoc_string. }
  unfold DependencyFetcher.parse_requirement, PyStr.split. split.
  - rewrite <- (app_empty_r name) at 1. rewrite Hfirst. simpl.
    rewrite (split_char_head_free _ _ Hpar). simpl.
    rewrite (split_char_head_free _ _ Hbr). simpl.
    by rewrite strip_no_space.
  - destruct Hsep as [Hsep|[->| ->]].
    + rewrite Hfirst. simpl. rewrite Hsep. simpl.
      rewrite (split_char_head_free _ _ Hpar). simpl.
      rewrite (split_char_head_free _ _ Hbr). simpl.
      by rewrite strip_no_space.
    + destruct (Hword "("%char rest eq_refl) as [r ->]. simpl.
      rewrite (split_char_head_cut _ _ _ Hpar). simpl.
      rewrite (split_char_head_free _ _ Hbr). simpl.
      by rewrite strip_no_space.
    + destruct (Hword "["%char rest eq_refl) as [r ->]. simpl.
      destruct (split_char_head_app "(" name (String "[" r) Hpar)
        as (v' & Hv' & ->). simpl.
      assert (∃ a', v' = String "[" a') as [a' ->].
      { simpl in Hv'. destruct (PyStr.split_char "(" r) as [|w ws];
          inversion Hv'; by eexists. }
      rewrite (split_char_head_cut _ _ _ Hbr). simpl.
      by rewrite strip_no_space.
Qed.

Lemma parse_requirement_bare_name_witness :
  DependencyFetcher.parse_requirement "requests" = Some "requests" ∧
  DependencyFetcher.parse_requirement ("requests" ++ String " " "(>=2.0)")
    = Some "requests".
Proof.
  apply (parse_requirement_bare_name "requests" " " "(>=2.0)").
  - by vm_compute.
  - by left.
Defined.

(** X9. The stub lookup does not distinguish names that are equal up to
    the case of their letters. *)
Theorem stub_lookup_ignores_case file p q :
  PyStr.upper p = PyStr.upper q ->
  DependencyFetcher._get_dependencies_from_test_file file p =
  DependencyFetcher._get_dependencies_from_test_file file q.
Proof.
  intros Hpq. destruct file as [content|]; [|done]. simpl. f_equal.
  induction (PyStr.split_char "010" (PyStr.strip content)) as [|line rest IH];
    simpl; [done|].
  by rewrite Hpq, IH.
Qed.

Lemma stub_lookup_ignores_case_witness :
  DependencyFetcher._get_dependencies_from_test_file (Some cycle_file) "a" =
  DependencyFetcher._get_dependencies_from_test_file (Some cycle_file) "A".
Proof. apply stub_lookup_ignores_case. reflexivity. Defined.

Lemma words_kept ws :
  Forall (fun d => d ≠ "" ∧ no_space d = true) ws ->
  List.filter PyStr.truthy (map PyStr.strip ws) = ws.
Proof.
  induction 1 as [|w ws [Hne Hw] _ IH]; simpl; [done|].
  rewrite (strip_no_space _ Hw), IH. by destruct w.
Qed.

Lemma record_deps_words line :
  Forall (fun d => d ≠ "" ∧ no_space d = true) (record_deps line).
Proof.
  unfold record_deps, PyStr.split.
  rewrite words_kept; by apply split_go_words.
Qed.

(** X10. Every name the stub lookup returns is not empty and holds no
    blank. *)
Theorem stub_lookup_names_words file p deps :
  DependencyFetcher._get_dependencies_from_test_file file p = Some deps ->
  Forall (fun d => d ≠ "" ∧ no_space d = true) deps.
Proof.
  destruct file as [content|]; [|done]. simpl. intros [= <-].
  apply Forall_forall. intros d Hd.
  apply list_elem_of_In, scan_record_deps, in_flat_map in Hd
    as (line & _ & Hd).
  pose proof (record_deps_words line) as Hwords.
  rewrite Forall_forall in Hwords. by apply Hwords, list_elem_of_In.
Qed.

Lemma stub_lookup_names_words_witness :
  Forall (fun d => d ≠ "" ∧ no_space d = true) ["B"; "Clib"].
Proof.
  refine (stub_lookup_names_words (Some clib_file) "a" ["B"; "Clib"] _).
  vm_compute. reflexivity.
Defined.

Lemma split_char_once_length sep s :
  PyStr.has_char sep s = true ->
  (1 <? length (PyStr.split_char_once sep s))%nat = true.
Proof.
  induction s as [|c s IH]; simpl; [done|].
  destruct (ascii_dec sep c) as [<-|Hne].
  - by destruct (ascii_dec sep sep).
  - intros Hs. destruct (ascii_dec c sep) as [->|_]; [done|].
    specialize (IH Hs). by destruct (PyStr.split_char_once sep s).
Qed.

(** X11. The stub lookup returns the names of the first record of the file
    whose name equals the package name up to case, whatever records
    follow, and the empty list when the file has no such record; blank
    lines, comment lines and lines without a colon are passed over. *)
Theorem stub_lookup_first_record content p :
  DependencyFetcher._get_dependencies_from_test_file (Some content) p =
  Some match List.find (record_of p)
               (PyStr.split_char "010" (PyStr.strip content)) with
       | Some line => record_deps line
       | None => []
       end.
Proof.
  simpl. f_equal.
  induction (PyStr.split_char "010" (PyStr.strip content)) as [|line rest IH];
    simpl; [done|].
  unfold record_of, is_record, record_name.
  destruct (PyStr.truthy (PyStr.strip line)); simpl; [|done].
  destruct (PyStr.startswith_char "#" (PyStr.strip line)); simpl; [done|].
  destruct (PyStr.has_char ":" (PyStr.strip line)) eqn:Hcolon; simpl; [|done].
  destruct (String.eqb _ _); [|done].
  rewrite (split_char_once_length _ _ Hcolon). unfold record_deps.
  destruct (PyStr.strip (nth 1 _ "")) eqn:Hdeps; [|done].
  by vm_compute.
Qed.

(** ** The D2 text *)

Lemma edges_of_spec package deps : ∀ lines,
  Visualizer.edges_of package deps lines =
  (lines ++ map (Visualizer.edge_line package) deps)%list.
Proof.
  induction deps as [|dep deps IH]; intros lines; simpl.
  - by rewrite app_nil_r.
  - by rewrite IH, <- app_assoc.
Qed.

Lemma edges_spec items : ∀ lines,
  Visualizer.edges items lines = (lines ++ edge_statements items)%list.
Proof.
  induction items as [|[package deps] items IH]; intros lines; simpl.
  - by rewrite app_nil_r.
  - by rewrite IH, edges_of_spec, <- app_assoc.
Qed.

(** X12. The D2 text is the header line, an empty line, and then one line
    [source -> target] for each name in the list of each key, in the order
    of the items and of the lists; a key with an empty list gives no
    line. *)
Theorem generate_d2_code_lines items :
  Visualizer.generate_d2_code items =
  PyStr.join nl (Visualizer.header :: "" :: edge_statements items).
Proof. unfold Visualizer.generate_d2_code. by rewrite edges_spec. Qed.

(** X13. A graph none of whose keys has a dependency is rendered as the
    header line alone: its packages do not appear in the D2 text. *)
Theorem generate_d2_code_without_edges items :
  (∀ item, item ∈ items -> item.2 = []) ->
  Visualizer.generate_d2_code items = Visualizer.header ++ nl.
Proof.
  intros Hnone. unfold Visualizer.generate_d2_code. rewrite edges_spec.
  assert (edge_statements items = []) as ->; [|done].
  induction items as [|item items IH]; [done|].
  unfold edge_statements in *. simpl.
  rewrite (Hnone item) by by left. simpl.
  apply IH. intros item' Hitem'. apply Hnone. by right.
Qed.

Lemma generate_d2_code_without_edges_witness :
  Visualizer.generate_d2_code [("A", []); ("B", [])] = Visualizer.header ++ nl.
Proof.
  apply generate_d2_code_without_edges.
  intros item Hitem.
  apply elem_of_cons in Hitem as [->|Hitem]; [done|].
  apply elem_of_cons in Hitem as [->|Hitem]; [done|].
  by apply elem_of_nil in Hitem.
Defined.

Lemma needs_quotes_inside x a y :
  existsb (fun c => PyStr.has_char c a) Visualizer.special = true ->
  existsb (fun c => PyStr.has_char c (x ++ a ++ y)) Visualizer.special = true.
Proof.
  rewrite !existsb_exists. intros (c & Hc & Ha). exists c. split; [done|].
  by rewrite !has_char_app, Ha, orb_true_r.
Qed.

(** X14. [_escape_d2_identifier] maps different names to different
    identifiers. *)
Theorem escape_d2_identifier_injective a b :
  Visualizer._escape_d2_identifier a = Visualizer._escape_d2_identifier b ->
  a = b.
Proof.
  unfold Visualizer._escape_d2_identifier.
  destruct (existsb _ Visualizer.special) eqn:Ha;
    destruct (existsb (fun c => PyStr.has_char c b) _) eqn:Hb; intros Heq.
  - unfold Visualizer.quote in Heq. rewrite !app_String in Heq.
    inversion Heq as [Heq']. exact (app_inv_tail_string a b _ Heq').
  - subst b. by rewrite needs_quotes_inside in Hb.
  - subst a. by rewrite needs_quotes_inside in Ha.
  - done.
Qed.

Lemma escape_d2_identifier_injective_witness : "a-b" = "a-b".
Proof. apply escape_d2_identifier_injective. reflexivity. Defined.

(** ** The name of the D2 file *)

Lemma replace_go_0 old new c s :
  PyStr.replace_go old new 0 (String c s) =
  if String.prefix old (String c s)
  then new ++ PyStr.replace_go old new (String.length old - 1) s
  else String c (PyStr.replace_go old new 0 s).
Proof. reflexivity. Qed.

Lemma replace_absent old new s :
  PyStr.contains old s = false -> PyStr.replace old new s = s.
Proof.
  unfold PyStr.replace. induction s as [|c s IH]; [done|].
  rewrite contains_String, replace_go_0.
  intros [-> Hs]%orb_false_iff. by rewrite (IH Hs).
Qed.

(** X15. When the output file name does not contain [.svg], [visualize]
    saves the D2 text under the output file name itself. *)
Theorem d2_file_name_without_svg output_file :
  PyStr.contains ".svg" output_file = false ->
  Visualizer.d2_file_name output_file = output_file.
Proof. apply replace_absent. Qed.

Lemma d2_file_name_without_svg_witness :
  Visualizer.d2_file_name "graph.png" = "graph.png".
Proof. apply d2_file_name_without_svg. reflexivity. Defined.

Lemma svg_not_straddling base :
  PyStr.contains ".svg" base = false ->
  base ≠ "" ->
  String.prefix ".svg" (base ++ ".svg") = false.
Proof.
  intros Hbase Hne. destruct base as [|c base]; [done|].
  rewrite contains_String in Hbase. apply orb_false_iff in Hbase as [Hpre _].
  destruct (String.prefix ".svg" (String c base ++ ".svg")) eqn:Hp; [|done].
  apply prefix_spec in Hp as [post Hp]. rewrite <- Hpre. symmetry.
  apply prefix_spec.
  destruct base as [|x [|y [|z base]]]; try (by inversion Hp).
  exists base. inversion Hp. done.
Qed.

(** X16. When the output file name ends in [.svg] and has no other
    occurrence of it, the D2 file has the same name with [.d2] for
    [.svg]. *)
Theorem d2_file_name_of_svg base :
  PyStr.contains ".svg" base = false ->
  Visualizer.d2_file_name (base ++ ".svg") = base ++ ".d2".
Proof.
  unfold Visualizer.d2_file_name, PyStr.replace.
  induction base as [|c base IH]; [done|]. intros Hbase.
  rewrite !app_String, replace_go_0, <- app_String.
  rewrite (svg_not_straddling _ Hbase) by done.
  rewrite contains_String in Hbase. apply orb_false_iff in Hbase as [_ Hbase].
  by rewrite (IH Hbase).
Qed.

Lemma d2_file_name_of_svg_witness :
  Visualizer.d2_file_name ("my.graph" ++ ".svg") = "my.graph" ++ ".d2".
Proof. apply d2_file_name_of_svg. reflexivity. Defined.

(** ** Configuration values *)

(** X17. An element whose text is made of blanks only passes [_get_text]
    and yields the empty string, and no other text does; [_get_bool]
    rejects such an element. *)
Theorem get_text_blank t :
  (Config._get_text (Some t) = Config.Value "" ↔ all_space t = true) ∧
  (all_space t = true -> Config._get_bool (Some t) = Config.ValueError).
Proof.
  split.
  - simpl. rewrite <- strip_empty. split; [by intros [= ->]|by intros ->].
  - intros Hblank%strip_empty. unfold Config._get_bool. simpl.
    by rewrite Hblank.
Qed.
